(** * mcp-fs: a filesystem toolhost and its chat driver

    Shallow embedding of [src/server.ts] (the toolhost: six filesystem tool
    handlers and the [/mcp] session endpoint) and of [src/client.ts] (the
    driver: the loop that asks the model, runs the tool calls it requests
    and feeds the results back), followed by the properties of the
    specification that concern them.

    Conventions.
    - A JavaScript string is represented by its UTF-8 encoding, one
      [ascii] per byte; [Js.length] recovers the number of UTF-16 code
      units that [String.prototype.length] reports.
    - An [async] function that touches the disk is a function of the
      world (the files and the log of [fs] calls made so far) that returns
      either a rejection (a thrown error) or a value, with the new world.
    - The name [Edition] distinguishes the two editions of the toolhost
      found in the repository: [src/server.ts] and a second copy that
      differs from it only in its log lines and in the wording of its
      messages (no icons). *)

From Stdlib Require Import String Ascii NArith ZArith List Bool Lia.
From stdpp Require Import gmap strings list fin_maps pretty.

Open Scope string_scope.

(* ===================================================================== *)
(** ** JavaScript string operations used by the sources *)
(* ===================================================================== *)

Module Js.

(** One-byte members of the ECMAScript WhiteSpace and LineTerminator
    classes: TAB, LF, VT, FF, CR and SPACE. *)
Definition ws1 (c : ascii) : bool :=
  let n := N_of_ascii c in
  ((9 <=? n) && (n <=? 13))%N || (n =? 32)%N.

(** U+00A0, encoded on two bytes. *)
Definition ws2 (c1 c2 : ascii) : bool :=
  ((N_of_ascii c1 =? 194) && (N_of_ascii c2 =? 160))%N.

(** The three-byte members: U+1680, U+2000..U+200A, U+2028, U+2029,
    U+202F, U+205F, U+3000 and U+FEFF. *)
Definition ws3 (c1 c2 c3 : ascii) : bool :=
  let a := N_of_ascii c1 in
  let b := N_of_ascii c2 in
  let c := N_of_ascii c3 in
  ((a =? 225) && (b =? 154) && (c =? 128))%N
  || ((a =? 226) && (b =? 128)
      && (((128 <=? c) && (c <=? 138)) || (c =? 168) || (c =? 169)
          || (c =? 175)))%N
  || ((a =? 226) && (b =? 129) && (c =? 159))%N
  || ((a =? 227) && (b =? 128) && (c =? 128))%N
  || ((a =? 239) && (b =? 187) && (c =? 191))%N.

(** [blank s] is [s.trim() === ""]: every character of [s] is white
    space (so the empty string is blank). *)
Fixpoint blank (s : string) : bool :=
  match s with
  | EmptyString => true
  | String c1 s1 =>
      if ws1 c1 then blank s1
      else
        match s1 with
        | EmptyString => false
        | String c2 s2 =>
            if ws2 c1 c2 then blank s2
            else
              match s2 with
              | EmptyString => false
              | String c3 s3 => if ws3 c1 c2 c3 then blank s3 else false
              end
        end
  end.

(** [falsy s] is [!s] for a string value: only the empty string. *)
Definition falsy (s : string) : bool := String.eqb s "".

(** Number of UTF-16 code units contributed by the UTF-8 byte [c]: a
    continuation byte contributes none, the lead byte of a four-byte
    sequence (a code point beyond the basic plane) contributes two. *)
Definition units (c : ascii) : nat :=
  let n := N_of_ascii c in
  if (n <? 128)%N then 1
  else if (n <? 192)%N then 0
  else if (n <? 240)%N then 1
  else 2.

(** [s.length]. *)
Fixpoint length (s : string) : nat :=
  match s with
  | EmptyString => 0
  | String c s' => units c + length s'
  end.

(** Template-literal rendering of a number. *)
Definition show (n : nat) : string := pretty (N.of_nat n).

(** [s.split("/")]. *)
Fixpoint split (s : string) : list string :=
  match s with
  | EmptyString => [""]
  | String c s' =>
      if Ascii.eqb c "/" then "" :: split s'
      else
        match split s' with
        | h :: t => String c h :: t
        | [] => [String c ""]
        end
  end.

(** [xs.slice(0, -1)]. *)
Definition slice_init (xs : list string) : list string := removelast xs.

(** [xs.join(sep)]. *)
Definition join (sep : string) (xs : list string) : string :=
  String.concat sep xs.

(** [a || b] on strings. *)
Definition or_else (a b : string) : string := if falsy a then b else a.

(** [c.toLowerCase()] on one byte; bytes of multi-byte characters are
    left alone (no such character lower-cases to an ASCII letter of
    the word compared against below). *)
Definition lower (c : ascii) : ascii :=
  let n := N_of_ascii c in
  if ((65 <=? n) && (n <=? 90))%N then ascii_of_N (n + 32) else c.

Fixpoint toLowerCase (s : string) : string :=
  match s with
  | EmptyString => EmptyString
  | String c s' => String (lower c) (toLowerCase s')
  end.

(** [s.trimStart()]: white-space characters are dropped from the
    front until one that is not white space. *)
Fixpoint trimStart (s : string) : string :=
  match s with
  | EmptyString => EmptyString
  | String c1 s1 =>
      if ws1 c1 then trimStart s1
      else
        match s1 with
        | EmptyString => s
        | String c2 s2 =>
            if ws2 c1 c2 then trimStart s2
            else
              match s2 with
              | EmptyString => s
              | String c3 s3 => if ws3 c1 c2 c3 then trimStart s3 else s
              end
        end
  end.

(** [s.trimEnd()]: the string is kept up to the point from which only
    white space follows. *)
Fixpoint trimEnd (s : string) : string :=
  match s with
  | EmptyString => EmptyString
  | String c s' => if blank s then EmptyString else String c (trimEnd s')
  end.

(** [s.trim()]. *)
Definition trim (s : string) : string := trimEnd (trimStart s).

End Js.

(* ===================================================================== *)
(** ** The disk, as [fs/promises] presents it *)
(* ===================================================================== *)

Module Fs.

(** What a path names. Paths are compared as written: the store is
    indexed by the path string itself, so two spellings of one file
    ([a.txt] and [./a.txt]) are two entries, and a path below a regular
    file is an absent entry like any other (node tells it apart, with
    [ENOTDIR]). Statements that would depend on either are made about
    the calls of [fs] or assume the directory of the path. *)
Inductive Node : Type :=
| File (data : string)
| Dir.

(** [err.code]. *)
Inductive Code : Type := ENOENT | EISDIR | ENOTDIR.

Record Error : Type := mkError { code : Code; message : string }.

(** The calls of [fs/promises] the handlers make. *)
Inductive Call : Type :=
| Access (path : string)
| Stat (path : string)
| ReadFile (path : string)
| WriteFile (path data : string)
| AppendFile (path data : string)
| Unlink (path : string)
| Readdir (path : string).

Record World : Type := mkWorld {
  files : gmap string Node;
  calls : list Call
}.

(** A promise: run against a world, it is rejected with an error or
    fulfilled with a value. *)
Definition Io (A : Type) : Type := World -> (Error + A) * World.

Definition ret {A} (a : A) : Io A := fun w => (inr a, w).

Definition throw {A} (e : Error) : Io A := fun w => (inl e, w).

Definition bind {A B} (m : Io A) (k : A -> Io B) : Io B :=
  fun w =>
    match m w with
    | (inl e, w') => (inl e, w')
    | (inr a, w') => k a w'
    end.

(** [try { m } catch (err) { h err }]. *)
Definition try_catch {A} (m : Io A) (h : Error -> Io A) : Io A :=
  fun w =>
    match m w with
    | (inl e, w') => h e w'
    | (inr a, w') => (inr a, w')
    end.

(** Did [m] settle without throwing? Used for
    [try { await m; ... } catch { ... }] where the two continuations
    differ. *)
Definition attempt {A} (m : Io A) : Io (Error + A) :=
  fun w => let '(r, w') := m w in (inr r, w').

Definition record (c : Call) : Io unit :=
  fun w => (inr tt, mkWorld (files w) (calls w ++ [c])).

Definition lookup (p : string) : Io (option Node) :=
  fun w => (inr (files w !! p), w).

Definition store (p : string) (n : Node) : Io unit :=
  fun w => (inr tt, mkWorld (<[p := n]> (files w)) (calls w)).

Definition remove (p : string) : Io unit :=
  fun w => (inr tt, mkWorld (delete p (files w)) (calls w)).

Definition code_name (c : Code) : string :=
  match c with
  | ENOENT => "ENOENT: no such file or directory"
  | EISDIR => "EISDIR: illegal operation on a directory"
  | ENOTDIR => "ENOTDIR: not a directory"
  end.

(** The error node raises: [CODE: description, syscall 'path']. *)
Definition err (c : Code) (syscall p : string) : Error :=
  mkError c (code_name c ++ ", " ++ syscall ++ " '" ++ p ++ "'").

(** The directory a new entry [p] is linked into: what precedes the
    last slash, the root for ["/name"], the working directory when
    there is no slash. *)
Definition parent (p : string) : string :=
  match Js.slice_init (Js.split p) with
  | [] => "."
  | [""] => "/"
  | ds => Js.join "/" ds
  end.

Definition basename (p : string) : string := List.last (Js.split p) "".

(** Names of the entries of directory [p]. *)
Definition entries (fs : gmap string Node) (p : string) : list string :=
  basename <$>
    List.filter (fun k => String.eqb (parent k) p && negb (String.eqb k p))
                (elements (dom fs)).

End Fs.

Declare Scope io_scope.
Delimit Scope io_scope with io.
Notation "x <- m ;; k" := (Fs.bind m (fun x => k))
(at level 100, m at next level, right associativity) : io_scope.
Notation "m ;;; k" := (Fs.bind m (fun _ => k))
(at level 100, right associativity) : io_scope.
Open Scope io_scope.

Module FsCalls.
Import Fs.

(** [fs.access(p)]: fulfilled when something is at [p]. *)
Definition access (p : string) : Io unit :=
  record (Access p) ;;;
  n <- lookup p ;;
  match n with
  | Some _ => ret tt
  | None => throw (err ENOENT "access" p)
  end.

(** [fs.stat(p)], reduced to what the handlers read: [isDirectory()]. *)
Definition stat (p : string) : Io bool :=
  record (Stat p) ;;;
  n <- lookup p ;;
  match n with
  | Some Dir => ret true
  | Some (File _) => ret false
  | None => throw (err ENOENT "stat" p)
  end.

(** [fs.readFile(p, "utf-8")]. *)
Definition readFile (p : string) : Io string :=
  record (ReadFile p) ;;;
  n <- lookup p ;;
  match n with
  | Some (File d) => ret d
  | Some Dir => throw (mkError EISDIR (code_name EISDIR ++ ", read"))
  | None => throw (err ENOENT "open" p)
  end.

(** Opening [p] for writing: the data already there ([""] for a file
    the call creates, which needs its directory to exist). *)
Definition open_w (p : string) : Io string :=
  n <- lookup p ;;
  match n with
  | Some (File d) => ret d
  | Some Dir => throw (err EISDIR "open" p)
  | None =>
      d <- lookup (parent p) ;;
      match d with
      | Some Dir => ret ""
      | Some (File _) => throw (err ENOTDIR "open" p)
      | None => throw (err ENOENT "open" p)
      end
  end.

(** [fs.writeFile(p, data, "utf-8")]: creates or truncates. *)
Definition writeFile (p data : string) : Io unit :=
  record (WriteFile p data) ;;;
  _ <- open_w p ;;
  store p (File data).

(** [fs.appendFile(p, data, "utf-8")]: creates the file when absent. *)
Definition appendFile (p data : string) : Io unit :=
  record (AppendFile p data) ;;;
  old <- open_w p ;;
  store p (File (old ++ data)).

(** [fs.unlink(p)]. *)
Definition unlink (p : string) : Io unit :=
  record (Unlink p) ;;;
  n <- lookup p ;;
  match n with
  | Some (File _) => remove p
  | Some Dir => throw (err EISDIR "unlink" p)
  | None => throw (err ENOENT "unlink" p)
  end.

(** [fs.readdir(p)]. The names come in the order of the store, which
    need not be the order of the directory: only membership is meant. *)
Definition readdir (p : string) : Io (list string) :=
  record (Readdir p) ;;;
  n <- lookup p ;;
  match n with
  | Some Dir => fun w => (inr (entries (files w) p), w)
  | Some (File _) => throw (err ENOTDIR "scandir" p)
  | None => throw (err ENOENT "scandir" p)
  end.

End FsCalls.

(* ===================================================================== *)
(** ** The toolhost: [server.ts] *)
(* ===================================================================== *)

Module Server.
Import Fs FsCalls.

Inductive Edition : Type := ServerTs | Part000.

(** An icon of [src/server.ts], absent from the other edition. *)
Definition icon (ed : Edition) (i : string) : string :=
  match ed with ServerTs => i | Part000 => "" end.

Definition nl : string := String "010"%char EmptyString.
Definition dq : string := String "034"%char EmptyString.
Definition fence : string := "```".

(** One element of [content]: [{ type, text }]. *)
Record ContentItem : Type := mkItem { type : string; text : string }.

(** What a handler returns: [{ content: [...], isError?: true }]; an
    absent [isError] is [false]. *)
Record ToolResult : Type := mkResult {
  content : list ContentItem;
  isError : bool
}.

(** [{ content: [{ type: "text", text: t }] }]. *)
Definition success (t : string) : ToolResult :=
  mkResult [mkItem "text" t] false.

(** [{ content: [{ type: "text", text: t }], isError: true }]. *)
Definition failure (t : string) : ToolResult :=
  mkResult [mkItem "text" t] true.

(** The guard of five handlers:
    [!path || typeof path !== "string" || path.trim() === ""]. *)
Definition bad_path (path : option string) : bool :=
  match path with
  | None => true
  | Some p => Js.falsy p || Js.blank p
  end.

Definition path_required (ed : Edition) : ToolResult :=
  failure (icon ed "❌ " ++ "'path' must be a non-empty string.").

(** After the guard, [path] is a string. *)
Definition checked (ed : Edition) (path : option string)
    (body : string -> Io ToolResult) : Io ToolResult :=
  match path with
  | Some p => if bad_path path then ret (path_required ed) else body p
  | None => ret (path_required ed)
  end.

(** Tool [updateFile]. *)
Definition updateFile (ed : Edition) (path : option string)
    (content : string) : Io ToolResult :=
  checked ed path (fun path =>
    found <- attempt (access path) ;;
    match found with
    | inl _ =>
        ret (failure (icon ed "❌ " ++ "File not found at " ++ path
                      ++ ". Cannot update non-existent file."))
    | inr _ =>
        try_catch
          (writeFile path content ;;;
           ret (success (icon ed "✅ " ++ "File successfully updated at "
                         ++ path ++ ".")))
          (fun err =>
             ret (failure (icon ed "❌ " ++ "Failed to update file: "
                           ++ message err)))
    end).

(** Tool [deleteFile]. *)
Definition deleteFile (ed : Edition) (path : option string)
    : Io ToolResult :=
  checked ed path (fun path =>
    try_catch
      (isDirectory <- stat path ;;
       if isDirectory : bool then
         ret (failure (icon ed "⚠️ " ++ "'" ++ path
                       ++ "' is a directory. Use a directory-specific tool to delete folders."))
       else
         unlink path ;;;
         ret (success (icon ed "🗑️ " ++ "File successfully deleted: "
                       ++ path)))
      (fun err =>
         match code err with
         | ENOENT =>
             ret (failure (icon ed "❌ " ++ "File not found at " ++ path
                           ++ "."))
         | _ =>
             ret (failure (icon ed "❌ " ++ "Failed to delete file: "
                           ++ message err))
         end)).

(** The text [readFile] answers with, around the file's content. *)
Definition shown (ed : Edition) (path fileContent : string) : string :=
  match ed with
  | ServerTs =>
      "📄 Content of " ++ path ++ ":" ++ nl ++ nl ++ fence ++ " is " ++ nl
      ++ fileContent ++ nl ++ fence
  | Part000 =>
      "Content of " ++ path ++ ":" ++ nl ++ nl ++ fence ++ nl
      ++ fileContent ++ nl ++ fence
  end.

(** Tool [readFile]. *)
Definition readFile (ed : Edition) (path : option string)
    : Io ToolResult :=
  checked ed path (fun path =>
    try_catch
      (fileContent <- FsCalls.readFile path ;;
       ret (success (shown ed path fileContent)))
      (fun err =>
         match code err with
         | ENOENT =>
             ret (failure (icon ed "❌ " ++ "File not found at " ++ path
                           ++ "."))
         | _ =>
             ret (failure (icon ed "❌ " ++ "Error reading file: "
                           ++ message err))
         end)).

(** Tool [appendToFile]. *)
Definition appendToFile (ed : Edition) (path : option string)
    (content : string) : Io ToolResult :=
  checked ed path (fun path =>
    try_catch
      (appendFile path (content ++ nl) ;;;
       ret (success (icon ed "✅ " ++ "Content appended to " ++ path ++ " ("
                     ++ Js.show (Js.length content) ++ " characters).")))
      (fun err =>
         ret (failure (icon ed "❌ " ++ "Failed to append to file: "
                       ++ message err)))).

(** The text written when no usable content is supplied. *)
Definition default_content (ed : Edition) : string :=
  icon ed "📄 " ++ "Default file content generated by the MCP tool.".

(** [typeof content === "string" && content.trim() ? content : default]. *)
Definition finalContent (ed : Edition) (content : option string) : string :=
  match content with
  | Some c => if negb (Js.blank c) then c else default_content ed
  | None => default_content ed
  end.

(** [path.split("/").slice(0, -1).join("/") || "."]. *)
Definition parentDir (path : string) : string :=
  Js.or_else (Js.join "/" (Js.slice_init (Js.split path))) ".".

Definition already_exists (ed : Edition) (path : string) : string :=
  match ed with
  | ServerTs =>
      "⚠️ A file already exists at " ++ path
      ++ ". File creation aborted to prevent overwrite."
  | Part000 =>
      "A file already exists at " ++ path ++ ". Creation aborted."
  end.

(** Tool [createFile]. *)
Definition createFile (ed : Edition) (path content : option string)
    : Io ToolResult :=
  checked ed path (fun path =>
    let finalContent := finalContent ed content in
    try_catch
      (found <- attempt (access path) ;;
       match found with
       | inr _ => ret (failure (already_exists ed path))
       | inl _ =>
           let parentDir := parentDir path in
           there <- attempt (access parentDir) ;;
           match there with
           | inl _ =>
               ret (failure (icon ed "❌ " ++ "Parent directory " ++ dq
                             ++ parentDir ++ dq ++ " does not exist."))
           | inr _ =>
               writeFile path finalContent ;;;
               ret (success (icon ed "✅ " ++ "File created at " ++ path
                             ++ " with "
                             ++ Js.show (Js.length finalContent)
                             ++ " characters."))
           end
       end)
      (fun err =>
         ret (failure (icon ed "❌ "
                       ++ "Unexpected error while creating file: "
                       ++ message err)))).

(** [JSON.stringify(params)] inside a template literal, for the two
    shapes [params] has when [params?.path] is not a string: [undefined]
    and the object without a [path]. *)
Definition stringify (params : option (option string)) : string :=
  match params with
  | None => "undefined"
  | Some _ => "{}"
  end.

(** Tool [listFiles]; [params] is [None] for [undefined], [Some path] for
    an object whose [path] is [path]. The guard is
    [typeof path !== "string"]. *)
Definition listFiles (ed : Edition) (params : option (option string))
    : Io ToolResult :=
  let path := match params with Some p => p | None => None end in
  match path with
  | None =>
      ret (failure (icon ed "❌ "
                    ++ "Invalid 'path' argument. Must be a string. Received: "
                    ++ stringify params))
  | Some path =>
      try_catch
        (files <- readdir path ;;
         ret (success (icon ed "📁 " ++ "Files in " ++ path ++ ": "
                       ++ Js.join ", " files)))
        (fun err =>
           ret (failure (icon ed "⚠️ " ++ "Error reading directory: "
                         ++ message err)))
  end.

(** *** The tools registered by [getServer] *)

(** The [arguments] object of a call. Every parameter the schemas
    declare is a string, so the object is kept as a finite map from
    property names to strings. *)
Abbreviation Args := (gmap string string).

(** A parameter of an input schema: [z.string()],
    [z.string().default(d)] or [z.string().optional()]. *)
Inductive Param : Type :=
| Required
| Default (d : string)
| Optional.

Record Tool : Type := mkTool {
  name : string;
  description : string;
  inputSchema : list (string * Param);
  handler : Args -> Io ToolResult
}.

Definition quoted (s : string) : string := dq ++ s ++ dq.

Definition lines (ls : list string) : string := Js.join nl ls.

(** The text of [describeServer] (after [.trim()] in [src/server.ts]). *)
Definition about (ed : Edition) : string :=
  match ed with
  | ServerTs => lines [
      "📡 MCP Filesystem Toolhost Server"; "";
      "This server provides file system operations such as:";
      "- 📄 createFile"; "- ✏️ updateFile"; "- 🧾 readFile";
      "- ➕ appendToFile"; "- 🗑️ deleteFile"; "- 📂 listFiles"; "";
      "🧠 How to use:";
      "• Send a JSON-RPC 2.0 message to this server via /mcp endpoint.";
      "• Each tool expects specific parameters (path, content, etc.).";
      "• Use the tool 'describeTools' to get a list of all available tools with input schemas.";
      "";
      "🔍 Example call:";
      "{";
      "  " ++ quoted "jsonrpc" ++ ": " ++ quoted "2.0" ++ ",";
      "  " ++ quoted "id" ++ ": " ++ quoted "1" ++ ",";
      "  " ++ quoted "method" ++ ": " ++ quoted "readFile" ++ ",";
      "  " ++ quoted "params" ++ ": {";
      "    " ++ quoted "path" ++ ": " ++ quoted "./example.txt";
      "  }";
      "}"; "";
      "💡 Tip:";
      "You can dynamically explore all tools using the 'describeTools' method.";
      "This server is session-aware using the 'mcp-session-id' header." ]
  | Part000 => lines [
      "MCP Filesystem Toolhost Server"; "";
      "This server provides file system operations such as:";
      "- createFile"; "- updateFile"; "- readFile";
      "- appendToFile"; "- deleteFile"; "- listFiles"; "";
      "How to use:";
      "• Send a JSON-RPC 2.0 message to this server via /mcp endpoint.";
      "• Each tool expects specific parameters (path, content, etc.).";
      "• Use the tool 'describeTools' to get a list of all available tools with input schemas.";
      "";
      "Example call:";
      "{";
      "  " ++ quoted "jsonrpc" ++ ": " ++ quoted "2.0" ++ ",";
      "  " ++ quoted "id" ++ ": " ++ quoted "1" ++ ",";
      "  " ++ quoted "method" ++ ": " ++ quoted "readFile" ++ ",";
      "  " ++ quoted "params" ++ ": { " ++ quoted "path" ++ ": "
           ++ quoted "./example.txt" ++ " }";
      "}"; "";
      "Tip:";
      "Use the 'describeTools' method to explore all tools.";
      "This server is session-aware via the 'mcp-session-id' header." ]
  end.

Definition describeServer (ed : Edition) : Io ToolResult :=
  ret (success (about ed)).

(** A parameter the schema guarantees to be present. *)
Definition given (a : Args) (k : string) : string :=
  match a !! k with Some v => v | None => "" end.

(** [getServer()]: the tools, in registration order. [cwd] is
    [process.cwd()], read when the schemas are built. *)
Definition getServer (ed : Edition) (cwd : string) : list Tool := [
  mkTool "describeServer"
    "Returns general information about this MCP server, its purpose, and how to interact with it."
    []
    (fun _ => describeServer ed);
  mkTool "updateFile"
    "Overwrite the content of an existing file."
    [("path", Default (cwd ++ "/temp.cpp")); ("content", Required)]
    (fun a => updateFile ed (a !! "path") (given a "content"));
  mkTool "deleteFile"
    "Delete a file from the user's machine at the specified path."
    [("path", Required)]
    (fun a => deleteFile ed (a !! "path"));
  mkTool "readFile"
    "Read and return the content of a file at the given path."
    [("path", Default (cwd ++ "/example.txt"))]
    (fun a => readFile ed (a !! "path"));
  mkTool "appendToFile"
    (match ed with
     | ServerTs => "Append text content to a file."
     | Part000 => "Append text content to an existing file."
     end)
    [("path", Default (cwd ++ "/new.txt"));
     ("content",
      Default (icon ed "📎 " ++ "Appended content from the MCP tool."))]
    (fun a => appendToFile ed (a !! "path") (given a "content"));
  mkTool "createFile"
    "Create a new file on the user's machine via the external tool server."
    [("path", Default cwd); ("content", Optional)]
    (fun a => createFile ed (a !! "path") (a !! "content"));
  mkTool "listFiles"
    "List files in a directory on the user's machine, called via an external tool server."
    [("path", Default cwd)]
    (fun a => listFiles ed (Some (a !! "path")))
].

(** Modelled from the spec: schema validation, which the MCP SDK and zod
    perform outside the repository. The arguments are checked against the
    schema before the handler runs: a parameter that is absent takes its
    default, stays absent when optional, and is a violation otherwise;
    properties the schema does not declare are dropped. The result is the
    list of violating fields or the validated arguments. *)
Fixpoint validate (schema : list (string * Param)) (a : Args)
    : list string * Args :=
  match schema with
  | [] => ([], ∅)
  | (k, spec) :: rest =>
      let '(bad, v) := validate rest a in
      match a !! k, spec with
      | Some x, _ => (bad, <[k := x]> v)
      | None, Default d => (bad, <[k := d]> v)
      | None, Optional => (bad, v)
      | None, Required => (k :: bad, v)
      end
  end.

Definition find_tool (tools : list Tool) (n : string) : option Tool :=
  List.find (fun t => String.eqb (name t) n) tools.

(** Modelled from the spec: [dispatch] of the tool registry, which the
    MCP SDK performs outside the repository. An unregistered name is an
    [UnknownTool] failure and arguments that do not validate are an
    [InvalidArguments] failure listing the violating fields, both
    delivered as error-flagged results and without invoking any handler;
    otherwise the handler runs on the validated arguments and its result
    is returned unmodified. Nothing is thrown across this boundary. *)
Definition dispatch (tools : list Tool) (n : string) (a : Args)
    : Io ToolResult :=
  match find_tool tools n with
  | None => ret (failure ("Tool " ++ n ++ " not found"))
  | Some t =>
      match validate (inputSchema t) a with
      | ([], v) =>
          try_catch (handler t v) (fun err => ret (failure (message err)))
      | (bad, _) =>
          ret (failure ("Invalid arguments for tool " ++ n ++ ": "
                        ++ Js.join ", " bad))
      end
  end.

(** *** The [/mcp] endpoint and the session table *)

(** A transport object, with the [McpServer] instance [getServer()]
    built for it; both are identified by the order of their creation. *)
Record Transport : Type := mkTransport {
  object_id : nat;
  mcp : nat
}.

#[export] Instance Transport_eq_dec : EqDecision Transport.
Proof. solve_decision. Defined.

(** An inbound request: the [mcp-session-id] header and the JSON-RPC
    method of the body. *)
Record Request : Type := mkRequest {
  session_header : option string;
  rpc_method : string
}.

(** The process-wide state of the endpoint: the table [transports], the
    session identifier each transport object holds once initialized, the
    number of objects created and the number of identifiers drawn. *)
Record Endpoint : Type := mkEndpoint {
  transports : gmap string Transport;
  sessionId : gmap nat string;
  created : nat;
  drawn : nat
}.

(** What the model keeps of the answer: the transport that handled the
    request and the session identifier it announced, if it initialized
    a session while doing so. *)
Record Response : Type := mkResponse {
  served_by : Transport;
  announced : option string
}.

(** The table is a plain object ([{}]): besides the sessions recorded
    in it, reading it at one of the names below yields the member every
    object inherits from [Object.prototype], a truthy value that is not
    a transport. *)
Definition inherited_names : list string :=
  ["constructor"; "__defineGetter__"; "__defineSetter__"; "hasOwnProperty";
   "__lookupGetter__"; "__lookupSetter__"; "isPrototypeOf";
   "propertyIsEnumerable"; "toString"; "valueOf"; "__proto__";
   "toLocaleString"].

Definition inherited (s : string) : bool :=
  existsb (String.eqb s) inherited_names.

(** What [transports[sessionId]] yields when it is truthy. *)
Inductive Slot : Type :=
| Session (transport : Transport)
| Member (name : string).

Section Sessions.

(** [randomUUID()]: the identifier obtained at the n-th draw (a UUID). *)
Variable randomUUID : nat -> string.

(** The transport class belongs to the MCP SDK. Whether a transport
    initializes a session while handling a request (it then calls
    [sessionIdGenerator] and [onsessioninitialized]) is its decision,
    taken from its own session identifier, if any, and the request. *)
Variable initializes : option string -> Request -> bool.

(** [sessionId && transports[sessionId]]: the value found, when it is
    truthy. An own property shadows an inherited one. *)
Definition known (sid : option string) (table : gmap string Transport)
    : option Slot :=
  match sid with
  | None => None
  | Some s =>
      if Js.falsy s then None
      else
        match table !! s with
        | Some transport => Some (Session transport)
        | None => if inherited s then Some (Member s) else None
        end
  end.

(** The [else] branch: [getServer()], [new StreamableHTTPServerTransport]
    and [mcp.connect(transport)]. *)
Definition connect_new (st : Endpoint) : Transport * Endpoint :=
  let transport := mkTransport (S (created st)) (created st) in
  (transport,
   mkEndpoint (transports st) (sessionId st) (2 + created st) (drawn st)).

(** [onsessioninitialized]: [transports[sid] = transport]. *)
Definition onsessioninitialized (transport : Transport) (sid : string)
    (table : gmap string Transport) : gmap string Transport :=
  <[sid := transport]> table.

(** [transport.handleRequest(req, res, req.body)], as far as the table
    is concerned. *)
Definition handleRequest (transport : Transport) (req : Request)
    (st : Endpoint) : Response * Endpoint :=
  if initializes (sessionId st !! object_id transport) req then
    let sid := randomUUID (drawn st) in
    (mkResponse transport (Some sid),
     mkEndpoint (onsessioninitialized transport sid (transports st))
                (<[object_id transport := sid]> (sessionId st))
                (created st) (S (drawn st)))
  else (mkResponse transport None, st).

(** [app.post("/mcp", ...)]: the handler is rejected with an error or
    yields the response of the transport. Calling [handleRequest] on an
    inherited member, which has no such method, throws. *)
Definition post_mcp (req : Request) (st : Endpoint)
    : (string + Response) * Endpoint :=
  let '(transport, st1) :=
    match known (session_header req) (transports st) with
    | Some found => (found, st)
    | None => let '(created, st1) := connect_new st in (Session created, st1)
    end in
  match transport with
  | Session transport =>
      let '(resp, st2) := handleRequest transport req st1 in (inr resp, st2)
  | Member _ =>
      (inl "TypeError: transport.handleRequest is not a function", st1)
  end.

End Sessions.

(** The streamable HTTP transport of the SDK initializes a session when
    a transport that has none handles an [initialize] request. *)
Definition sdk_initializes (own : option string) (req : Request) : bool :=
  match own with
  | Some _ => false
  | None => String.eqb (rpc_method req) "initialize"
  end.

Definition boot : Endpoint := mkEndpoint ∅ ∅ 0 0.

End Server.

(* ===================================================================== *)
(** ** The driver: [client.ts] *)
(* ===================================================================== *)

Module Client.
Import Server.

Inductive Role : Type := user | assistant | tool | system.

(** [{ id?, function: { name, arguments } }]. *)
Record ToolCall : Type := mkCall {
  id : option string;
  function_name : string;
  function_arguments : Args
}.

(** A message of the transcript, and a reply of the model. *)
Record Message : Type := mkMessage {
  role : Role;
  content : string;
  tool_calls : option (list ToolCall);
  tool_call_id : option string
}.

(** [{ role, content }]. *)
Definition say (r : Role) (c : string) : Message := mkMessage r c None None.

(** The two copies of [client.ts] in the repository: the first opens
    with a [user] prompt and greets the model, the second opens with a
    [system] prompt. Their chat loops are the same. *)
Inductive Variant : Type := Greeting | SystemPrompt.

Definition opening (v : Variant) : Message :=
  match v with
  | Greeting =>
      say user
        ("You are an AI assistant with access to MCP tools." ++ nl
         ++ "    If you're unsure, ask clarifying questions. Always consider using the 'describeServer' tool."
         ++ nl ++ "    Do not summarize the tool response,")
  | SystemPrompt =>
      say system
        ("You are an AI assistant with access to MCP tools. " ++ nl
         ++ "    If you're unsure, ask clarifying questions. Always consider tool descriptions before responding.")
  end.

(** [promptInput]: the answer typed at the prompt, trimmed. *)
Definition promptInput (ans : string) : string := Js.trim ans.

Section Driver.

(** The toolhost as the driver sees it: [client.callTool] is rejected
    with an error or fulfilled with a result, and changes the host. *)
Variable Host : Type.
Variable callTool : string -> Args -> Host -> (string + ToolResult) * Host.

(** The model endpoint: [data?.message] for the transcript submitted. *)
Variable llm : list Message -> option Message.

(** The state of [main]: the transcript, the toolhost, and the
    transcripts submitted to the model so far. *)
Record Driver : Type := mkDriver {
  messages : list Message;
  host : Host;
  submitted : list (list Message)
}.

(** [messages.push(m)]. *)
Definition push (m : Message) (d : Driver) : Driver :=
  mkDriver (messages d ++ [m]) (host d) (submitted d).

(** The reply to a transcript:
    [data?.message ?? { role: "assistant", content: ... }]. *)
Definition reply (transcript : list Message) : Message :=
  match llm transcript with
  | Some m => m
  | None => say assistant "⚠️ No message received."
  end.

(** [await callLLM(messages, tools)], for an endpoint that answers; a
    [fetch] that fails would reject [main] and is not modelled. *)
Definition callLLM (d : Driver) : Message * Driver :=
  (reply (messages d),
   mkDriver (messages d) (host d) (submitted d ++ [messages d])).

(** [resp.tool_calls], an absent list being empty: the test of the loop
    is [!resp.tool_calls?.length]. *)
Definition toolCalls (resp : Message) : list ToolCall :=
  match tool_calls resp with
  | Some calls => calls
  | None => []
  end.

(** The text items of a result, concatenated. *)
Definition toolOutput (r : ToolResult) : string :=
  fold_left
    (fun out item =>
       if String.eqb (type item) "text" then out ++ text item else out)
    (Server.content r) "".

(** [toolCall.id ?? toolCall.function.name]. *)
Definition correlation (c : ToolCall) : string :=
  match id c with
  | Some i => i
  | None => function_name c
  end.

Definition answer (c : ToolCall) (r : ToolResult) : Message :=
  mkMessage tool (toolOutput r) None (Some (correlation c)).

(** [for (const toolCall of toolCalls) { ... }]. A rejected [callTool]
    is not caught: it leaves the loop and [main]. *)
Fixpoint forEach (calls : list ToolCall) (d : Driver)
    : (string + unit) * Driver :=
  match calls with
  | [] => (inr tt, d)
  | toolCall :: rest =>
      match callTool (function_name toolCall)
                     (function_arguments toolCall) (host d) with
      | (inl e, h) => (inl e, mkDriver (messages d) h (submitted d))
      | (inr toolResponse, h) =>
          forEach rest
            (push (answer toolCall toolResponse)
                  (mkDriver (messages d) h (submitted d)))
      end
  end.

(** One pass through the body of [while (true)], after the exit test. *)
Definition turn (userInput : string) (d : Driver)
    : (string + unit) * Driver :=
  let d := push (say user userInput) d in
  let '(resp, d) := callLLM d in
  match toolCalls resp with
  | [] => (inr tt, push (say assistant (content resp)) d)
  | _ :: _ =>
      let d := push (mkMessage assistant "" (Some (toolCalls resp)) None) d in
      match forEach (toolCalls resp) d with
      | (inl e, d) => (inl e, d)
      | (inr _, d) =>
          let '(finalResponse, d) := callLLM d in
          (inr tt, push (say assistant (content finalResponse)) d)
      end
  end.

(** [userInput.toLowerCase() === "exit"]. *)
Definition is_exit (userInput : string) : bool :=
  String.eqb (Js.toLowerCase userInput) "exit".

(** [while (true) { ... }] over the lines [promptInput] returns; the
    loop waits when they are exhausted. *)
Fixpoint chat (inputs : list string) (d : Driver)
    : (string + unit) * Driver :=
  match inputs with
  | [] => (inr tt, d)
  | userInput :: rest =>
      if is_exit userInput then (inr tt, d)
      else
        match turn userInput d with
        | (inl e, d) => (inl e, d)
        | (inr _, d) => chat rest d
        end
  end.

(** [main()], from the connection to the end of the chat. *)
Definition main (v : Variant) (inputs : list string) (h : Host)
    : (string + unit) * Driver :=
  let d := mkDriver [opening v] h [] in
  let d := match v with
           | Greeting => snd (callLLM d)
           | SystemPrompt => d
           end in
  chat inputs d.

End Driver.

Arguments mkDriver {Host}.
Arguments messages {Host}.
Arguments host {Host}.
Arguments submitted {Host}.
Arguments push {Host}.
Arguments callLLM {Host}.
Arguments forEach {Host}.
Arguments turn {Host}.
Arguments chat {Host}.
Arguments main {Host}.

End Client.

(* ===================================================================== *)
(** ** The driver connected to the toolhost *)
(* ===================================================================== *)

Module System.
Import Fs Server Client.

(** The toolhost behind the driver's connection: its disk and the calls
    it has received. *)
Record Toolhost : Type := mkToolhost {
  disk : World;
  received : list (string * Args)
}.

(** [client.callTool({ name, arguments })] against the tools of
    [getServer()]. *)
Definition callTool (ed : Edition) (cwd : string) (n : string) (a : Args)
    (h : Toolhost) : (string + ToolResult) * Toolhost :=
  match dispatch (getServer ed cwd) n a (disk h) with
  | (inl e, w) => (inl (message e), mkToolhost w (received h ++ [(n, a)]))
  | (inr r, w) => (inr r, mkToolhost w (received h ++ [(n, a)]))
  end.

End System.

(* ===================================================================== *)
(** ** Properties of the string operations and of the disk *)
(* ===================================================================== *)

Module JsFacts.

Lemma falsy_blank (s : string) : Js.falsy s = true -> Js.blank s = true.
Proof.
  unfold Js.falsy. intros H. apply String.eqb_eq in H. subst s. reflexivity.
Qed.


Lemma length_app (a b : string) :
  Js.length (a ++ b) = Js.length a + Js.length b.
Proof.
  induction a as [|c a IH]; simpl; [reflexivity | rewrite IH; lia].
Qed.

Lemma length_newline (c : string) :
  Js.length (c ++ Server.nl) = S (Js.length c).
Proof.
  rewrite length_app. simpl. lia.
Qed.


End JsFacts.

Module FsFacts.
Import Fs FsCalls Server.

(** Running the guard on a usable path runs the body. *)
Lemma checked_good (ed : Edition) (p : string) (body : string -> Io ToolResult) :
  Js.blank p = false -> checked ed (Some p) body = body p.
Proof.
  intros Hb. unfold checked, bad_path.
  destruct (Js.falsy p) eqn:Hf.
  - apply JsFacts.falsy_blank in Hf. congruence.
  - rewrite Hb. reflexivity.
Qed.

(** Running it on an unusable one answers at once. *)
Lemma checked_bad (ed : Edition) (path : option string)
    (body : string -> Io ToolResult) (w : World) :
  bad_path path = true ->
  checked ed path body w = (inr (path_required ed), w).
Proof.
  intros Hb. unfold checked. destruct path as [p|]; [|reflexivity].
  rewrite Hb. reflexivity.
Qed.

Lemma blank_bad (p : string) : Js.blank p = true -> bad_path (Some p) = true.
Proof.
  intros H. unfold bad_path. rewrite H. apply orb_true_r.
Qed.

Lemma default_content_not_blank (ed : Edition) :
  Js.blank (default_content ed) = false.
Proof. destruct ed; reflexivity. Qed.

Lemma finalContent_not_blank (ed : Edition) (c : option string) :
  Js.blank (finalContent ed c) = false.
Proof.
  unfold finalContent. destruct c as [s|].
  - destruct (Js.blank s) eqn:Hs; simpl; auto using default_content_not_blank.
  - apply default_content_not_blank.
Qed.

End FsFacts.

(* ===================================================================== *)
(** ** The tool handlers *)
(* ===================================================================== *)

Module ToolhostSpec.
Import Fs FsCalls Server.

(** The world [w] after the calls [cs], none of which changed a file. *)
Definition logged (w : World) (cs : list Call) : World :=
  mkWorld (files w) (calls w ++ cs).

(** A disk used in the examples: the working directory with a file, a
    directory holding a file, and a directory whose name is three
    spaces. *)
Definition sample : World :=
  mkWorld
    (<["." := Dir]> (<["a.txt" := File "x"]> (<["docs" := Dir]>
     (<["docs/b.txt" := File "y"]> (<["   " := Dir]>
     (<["   /notes.txt" := File "n"]> ∅))))))
    [].

Ltac io :=
  cbv beta delta [bind ret throw try_catch attempt record lookup store remove
                  access stat FsCalls.readFile open_w writeFile appendFile
                  unlink readdir logged];
  cbn [files calls fst snd].

(** Case analysis on every lookup the run depends on. *)
Ltac io_cases :=
  io;
  repeat first
    [ match goal with
      | H : files ?w !! ?p = _ |- context [files ?w !! ?p] => rewrite H; io
      end
    | match goal with
      | |- context [match files ?w !! ?p with _ => _ end] =>
          let E := fresh "E" in
          destruct (files w !! p) as [[?|]|] eqn:E; io
      end ].

Ltac guard_ok :=
  match goal with
  | H : Js.blank ?p = false |- context [checked _ (Some ?p) _] =>
      rewrite (FsFacts.checked_good _ p _ H)
  end.

(** *** Unusable paths *)

(** Five handlers answer an absent, empty or blank [path] with the
    invalid-argument failure and leave the disk alone: no call of
    [fs] is made. *)
Lemma five_handlers_reject_bad_path (ed : Edition) (path : option string)
    (content : string) (optional : option string) (w : World) :
  bad_path path = true ->
  updateFile ed path content w = (inr (path_required ed), w)
  /\ deleteFile ed path w = (inr (path_required ed), w)
  /\ readFile ed path w = (inr (path_required ed), w)
  /\ appendToFile ed path content w = (inr (path_required ed), w)
  /\ createFile ed path optional w = (inr (path_required ed), w).
Proof.
  intros Hb.
  unfold updateFile, deleteFile, readFile, appendToFile, createFile.
  repeat split; apply FsFacts.checked_bad; exact Hb.
Qed.

(** [listFiles] answers an absent [path] with a failure of its own and
    makes no call of [fs] either. *)
Lemma listFiles_rejects_missing_path (ed : Edition)
    (params : option (option string)) (w : World) :
  params = None \/ params = Some None ->
  exists r, listFiles ed params w = (inr r, w) /\ isError r = true.
Proof.
  intros [-> | ->]; eexists; split; reflexivity.
Qed.

(** Whatever string it is given as [path], [listFiles] calls
    [fs.readdir] on it. *)
Lemma listFiles_always_reads (ed : Edition) (p : string) (w : World) :
  calls (snd (listFiles ed (Some (Some p)) w)) = (calls w ++ [Readdir p])%list
  /\ files (snd (listFiles ed (Some (Some p)) w)) = files w.
Proof.
  unfold listFiles. io.
  destruct (files w !! p) as [[d|]|]; io; split; reflexivity.
Qed.

(** *** No handler throws *)

Lemma handlers_settle (ed : Edition) (path optional : option string)
    (content : string) (params : option (option string)) (w : World) :
  (exists r w', updateFile ed path content w = (inr r, w'))
  /\ (exists r w', deleteFile ed path w = (inr r, w'))
  /\ (exists r w', readFile ed path w = (inr r, w'))
  /\ (exists r w', appendToFile ed path content w = (inr r, w'))
  /\ (exists r w', createFile ed path optional w = (inr r, w'))
  /\ (exists r w', listFiles ed params w = (inr r, w')).
Proof.
  assert (Hlist : exists r w', listFiles ed params w = (inr r, w')).
  { destruct params as [[q|]|]; unfold listFiles; io_cases; eauto. }
  destruct (bad_path path) eqn:Hbad.
  - destruct (five_handlers_reject_bad_path ed path content optional w Hbad)
      as (-> & -> & -> & -> & ->).
    repeat split; eauto.
  - destruct path as [p|]; [|discriminate].
    unfold updateFile, deleteFile, readFile, appendToFile, createFile,
      checked. rewrite Hbad.
    repeat split; try exact Hlist; io_cases; eauto.
Qed.

(** *** [createFile] *)

Lemma createFile_existing (ed : Edition) (w : World) (p : string)
    (c : option string) :
  Js.blank p = false -> is_Some (files w !! p) ->
  createFile ed (Some p) c w
  = (inr (failure (already_exists ed p)), logged w [Access p]).
Proof.
  intros Hb [n Hn]. unfold createFile. guard_ok.
  io. rewrite Hn. reflexivity.
Qed.

Lemma createFile_orphan (ed : Edition) (w : World) (p : string)
    (c : option string) :
  files w !! parent p <> Some Dir ->
  exists r w', createFile ed (Some p) c w = (inr r, w')
    /\ isError r = true /\ files w' = files w.
Proof.
  intros Hp. destruct (bad_path (Some p)) eqn:Hbad.
  - unfold createFile. rewrite FsFacts.checked_bad by done. eauto.
  - unfold createFile, checked. rewrite Hbad. io.
    destruct (files w !! p) as [n|] eqn:Hn; io; [eauto|].
    destruct (files w !! parentDir p) as [d|] eqn:Hd; io; [|eauto].
    rewrite Hn; io.
    destruct (files w !! parent p) as [[?|]|] eqn:Hq; io; [eauto|done|eauto].
Qed.

(** What [createFile] does once its two checks pass: it writes
    [finalContent], and reports success when the write goes through. *)
Lemma createFile_writes (ed : Edition) (w : World) (p : string)
    (c : option string) :
  Js.blank p = false -> files w !! p = None ->
  is_Some (files w !! parentDir p) ->
  exists r w',
    createFile ed (Some p) c w = (inr r, w')
    /\ calls w' = (calls w ++ [Access p; Access (parentDir p);
                               WriteFile p (finalContent ed c)])%list
    /\ (isError r = false ->
        files w' = <[p := File (finalContent ed c)]> (files w))
    /\ (files w !! parent p = Some Dir ->
        r = success (icon ed "✅ " ++ "File created at " ++ p ++ " with "
                     ++ Js.show (Js.length (finalContent ed c))
                     ++ " characters.")).
Proof.
  intros Hb Hn [d Hd]. unfold createFile. guard_ok.
  io. rewrite Hn; io. rewrite Hd; io. rewrite Hn; io.
  rewrite <- !app_assoc. cbn [app].
  destruct (files w !! parent p) as [[?|]|] eqn:Hq; io;
    do 2 eexists; (split; [reflexivity|]); cbn [files calls isError failure success];
    repeat split; intros; try reflexivity; discriminate.
Qed.

(** Whatever it is given, a [createFile] that reports success has left
    at [p] the text [finalContent], which is not blank. *)
Lemma createFile_success (ed : Edition) (w w' : World) (p : string)
    (c : option string) (r : ToolResult) :
  createFile ed (Some p) c w = (inr r, w') -> isError r = false ->
  files w' = <[p := File (finalContent ed c)]> (files w).
Proof.
  intros Hrun Hok. destruct (bad_path (Some p)) eqn:Hbad.
  - unfold createFile in Hrun. rewrite FsFacts.checked_bad in Hrun by done.
    inversion Hrun; subst. discriminate.
  - unfold createFile, checked in Hrun. rewrite Hbad in Hrun.
    revert Hrun. io.
    destruct (files w !! p) as [n|] eqn:Hn; io;
      [intros Hrun; inversion Hrun; subst; discriminate|].
    destruct (files w !! parentDir p) as [d|] eqn:Hd; io;
      [|intros Hrun; inversion Hrun; subst; discriminate].
    rewrite Hn; io.
    destruct (files w !! parent p) as [[?|]|] eqn:Hq; io;
      intros Hrun; inversion Hrun; subst; try discriminate.
    reflexivity.
Qed.

(** C5, at the input where [listFiles] departs from it. Given the
    blank path of three spaces, [listFiles] does not answer with an
    invalid-argument failure: it calls [fs.readdir] on the path and, a
    directory of that name being there, answers with its listing; given
    the empty path, the failure it answers with is the one [fs.readdir]
    raised. The five other handlers answer both with the
    invalid-argument failure and call nothing
    ([five_handlers_reject_bad_path]). *)
Theorem listFiles_reads_blank_path :
  listFiles ServerTs (Some (Some "   ")) sample
  = (inr (success "📁 Files in    : notes.txt"),
     logged sample [Readdir "   "])
  /\ listFiles ServerTs (Some (Some "")) sample
    = (inr (failure
              "⚠️ Error reading directory: ENOENT: no such file or directory, scandir ''"),
       logged sample [Readdir ""])
  /\ readFile ServerTs (Some "   ") sample
    = (inr (path_required ServerTs), sample).
Proof.
  repeat split; vm_compute; reflexivity.
Qed.

(** C6. At a path where something already exists, [createFile] answers
    with the error-flagged result saying that a file already exists and
    leaves every file as it was; and when the directory the path lies
    in does not exist, it answers with an error-flagged result and
    creates nothing. (The path is one the guard of C5 lets through.) *)
Theorem createFile_refuses_overwrite (ed : Edition) (w : World)
    (p : string) (c : option string) :
  (Js.blank p = false -> is_Some (files w !! p) ->
   exists w',
     createFile ed (Some p) c w
     = (inr (failure (already_exists ed p)), w')
     /\ files w' = files w)
  /\ (files w !! parent p <> Some Dir ->
      exists r w',
        createFile ed (Some p) c w = (inr r, w')
        /\ isError r = true /\ files w' = files w).
Proof.
  split.
  - intros Hb Hn. rewrite createFile_existing by assumption.
    eexists. split; reflexivity.
  - apply createFile_orphan.
Qed.

Lemma createFile_refuses_overwrite_witness :
  (exists w',
     createFile ServerTs (Some "a.txt") (Some "z") sample
     = (inr (failure (already_exists ServerTs "a.txt")), w')
     /\ files w' = files sample)
  /\ (exists r w',
        createFile Part000 (Some "nowhere/c.txt") None sample = (inr r, w')
        /\ isError r = true /\ files w' = files sample).
Proof.
  split.
  - apply (proj1 (createFile_refuses_overwrite ServerTs sample "a.txt"
                    (Some "z"))).
    + reflexivity.
    + vm_compute. eauto.
  - apply (proj2 (createFile_refuses_overwrite Part000 sample
                    "nowhere/c.txt" None)).
    vm_compute. discriminate.
Defined.

(** C7. At a path that is a directory, [deleteFile] answers with the
    error-flagged result saying that the path is a directory; the only
    call it makes is [fs.stat], and the directory and every other entry
    of the disk stay as they were. (The path is one the guard of C5
    lets through.) *)
Theorem deleteFile_refuses_directory (ed : Edition) (w : World)
    (p : string) :
  Js.blank p = false -> files w !! p = Some Dir ->
  exists w',
    deleteFile ed (Some p) w
    = (inr (failure (icon ed "⚠️ " ++ "'" ++ p
                     ++ "' is a directory. Use a directory-specific tool to delete folders.")),
       w')
    /\ files w' = files w
    /\ calls w' = (calls w ++ [Stat p])%list.
Proof.
  intros Hb Hd. unfold deleteFile. guard_ok.
  io_cases; try discriminate.
  eexists. repeat split; reflexivity.
Qed.

Lemma deleteFile_refuses_directory_witness :
  exists w',
    deleteFile ServerTs (Some "docs") sample
    = (inr (failure
              "⚠️ 'docs' is a directory. Use a directory-specific tool to delete folders."),
       w')
    /\ files w' = files sample
    /\ calls w' = [Stat "docs"].
Proof.
  apply (deleteFile_refuses_directory ServerTs sample "docs");
    vm_compute; reflexivity.
Defined.



(** A [content] argument that is absent, empty or made of white space
    only. *)
Definition no_content (c : option string) : bool :=
  match c with
  | None => true
  | Some s => Js.blank s
  end.

Lemma finalContent_default (ed : Edition) (c : option string) :
  no_content c = true -> finalContent ed c = default_content ed.
Proof.
  unfold finalContent, no_content. destruct c as [s|]; [|reflexivity].
  intros ->. reflexivity.
Qed.

(** C9. When [createFile] is given no usable content (absent, empty or
    white space only) and its two checks on the path pass, the text it
    hands to [fs.writeFile] is the fixed default text, which in
    [src/server.ts] begins with the page icon; that text is what the
    file holds when the handler reports success, which it does when the
    directory the path lies in exists. Moreover, whatever content it is
    given, a [createFile] that reports success has left a file that is
    neither empty nor made of white space only. *)
Theorem createFile_default_content (ed : Edition) (w : World) (p : string)
    (c : option string) :
  no_content c = true ->
  Js.blank p = false ->
  files w !! p = None ->
  is_Some (files w !! parentDir p) ->
  default_content ServerTs
  = "📄 Default file content generated by the MCP tool."
  /\ (exists r w',
        createFile ed (Some p) c w = (inr r, w')
        /\ calls w' = (calls w ++ [Access p; Access (parentDir p);
                                   WriteFile p (default_content ed)])%list
        /\ (isError r = false ->
            files w' = <[p := File (default_content ed)]> (files w))
        /\ (files w !! parent p = Some Dir -> isError r = false))
  /\ (forall c0 r0 w0,
        createFile ed (Some p) c0 w = (inr r0, w0) -> isError r0 = false ->
        exists d, files w0 !! p = Some (File d) /\ Js.blank d = false).
Proof.
  intros Hc Hb Hn Hpd. split; [reflexivity|]. split.
  - destruct (createFile_writes ed w p c Hb Hn Hpd)
      as (r & w' & Hrun & Hcalls & Hfiles & Hr).
    rewrite (finalContent_default ed c Hc) in *.
    exists r, w'. repeat split; try assumption.
    intros Hd. rewrite (Hr Hd). reflexivity.
  - intros c0 r0 w0 Hrun Hok.
    exists (finalContent ed c0). split.
    + rewrite (createFile_success ed w w0 p c0 r0 Hrun Hok).
      apply lookup_insert_eq.
    + apply FsFacts.finalContent_not_blank.
Qed.

Lemma createFile_default_content_witness :
  default_content ServerTs
  = "📄 Default file content generated by the MCP tool."
  /\ (exists r w',
        createFile ServerTs (Some "docs/c.txt") (Some "  ") sample
        = (inr r, w')
        /\ calls w' = [Access "docs/c.txt"; Access "docs";
                       WriteFile "docs/c.txt" (default_content ServerTs)]
        /\ (isError r = false ->
            files w'
            = <["docs/c.txt" := File (default_content ServerTs)]>
                (files sample))
        /\ (files sample !! parent "docs/c.txt" = Some Dir ->
            isError r = false))
  /\ (forall c0 r0 w0,
        createFile ServerTs (Some "docs/c.txt") c0 sample = (inr r0, w0) ->
        isError r0 = false ->
        exists d, files w0 !! "docs/c.txt" = Some (File d)
                  /\ Js.blank d = false).
Proof.
  apply (createFile_default_content ServerTs sample "docs/c.txt"
           (Some "  ")).
  - reflexivity.
  - reflexivity.
  - vm_compute. reflexivity.
  - vm_compute. eauto.
Defined.

(** [appendToFile] reports success exactly when the append went
    through: at a file, or at a free path in an existing directory. *)
Lemma appendToFile_succeeds (ed : Edition) (w : World) (p c old : string) :
  Js.blank p = false ->
  files w !! p = Some (File old)
  \/ (files w !! p = None /\ files w !! parent p = Some Dir /\ old = "") ->
  exists r w', appendToFile ed (Some p) c w = (inr r, w')
               /\ isError r = false.
Proof.
  intros Hb H. unfold appendToFile. guard_ok.
  destruct H as [H | (H & Hd & _)]; io_cases; eauto.
Qed.

(** C10. When [appendToFile] with path [p] and content [c] reports
    success, the one call it made is [fs.appendFile] with [c] followed
    by one newline, and the file at [p] holds what it held before ([""]
    for a file the call created) followed by [c] and that newline; the
    message reports the length of [c], which is one less than the
    length of what was appended. *)
Theorem appendToFile_appends_line (ed : Edition) (w w' : World)
    (p c : string) (r : ToolResult) :
  appendToFile ed (Some p) c w = (inr r, w') ->
  isError r = false ->
  exists old,
    (files w !! p = Some (File old) \/ (files w !! p = None /\ old = ""))
    /\ calls w' = (calls w ++ [AppendFile p (c ++ nl)])%list
    /\ files w' = <[p := File (old ++ (c ++ nl))]> (files w)
    /\ r = success (icon ed "✅ " ++ "Content appended to " ++ p ++ " ("
                    ++ Js.show (Js.length c) ++ " characters).")
    /\ Js.length (c ++ nl) = S (Js.length c).
Proof.
  intros Hrun Hok. destruct (bad_path (Some p)) eqn:Hbad.
  - unfold appendToFile in Hrun.
    rewrite FsFacts.checked_bad in Hrun by assumption.
    inversion Hrun; subst. discriminate.
  - unfold appendToFile, checked in Hrun. rewrite Hbad in Hrun.
    revert Hrun. io_cases; intros Hrun; inversion Hrun; subst;
      try discriminate.
    + eexists. split; [left; reflexivity|].
      repeat split; try reflexivity. apply JsFacts.length_newline.
    + exists "". split; [right; split; reflexivity|].
      repeat split; try reflexivity. apply JsFacts.length_newline.
Qed.

(** The sample disk after ["more"] has been appended to [a.txt]. *)
Definition appended : World :=
  mkWorld (<["a.txt" := File ("x" ++ ("more" ++ nl))]> (files sample))
          [AppendFile "a.txt" ("more" ++ nl)].

Lemma appendToFile_appends_line_witness :
  exists old,
    (files sample !! "a.txt" = Some (File old)
     \/ (files sample !! "a.txt" = None /\ old = ""))
    /\ calls appended
      = (calls sample ++ [AppendFile "a.txt" ("more" ++ nl)])%list
    /\ files appended
      = <["a.txt" := File (old ++ ("more" ++ nl))]> (files sample)
    /\ success "✅ Content appended to a.txt (4 characters)."
      = success (icon ServerTs "✅ " ++ "Content appended to " ++ "a.txt"
                 ++ " (" ++ Js.show (Js.length "more") ++ " characters).")
    /\ Js.length ("more" ++ nl) = S (Js.length "more").
Proof.
  apply (appendToFile_appends_line ServerTs sample appended "a.txt" "more"
           (success "✅ Content appended to a.txt (4 characters).")).
  - vm_compute. reflexivity.
  - reflexivity.
Defined.

(** *** Entries whose name is blank *)

(** [s.includes(sub)]. *)
Fixpoint includes (sub s : string) : bool :=
  String.prefix sub s
  || match s with
     | EmptyString => false
     | String _ rest => includes sub rest
     end.

(** An error-flagged result one of whose texts says [what]. *)
Definition reports (what : string) (r : ToolResult) : bool :=
  isError r && existsb (fun item => includes what (text item)) (content r).

(** A disk whose working directory holds a file named by one space. *)
Definition spaced : World :=
  mkWorld (<["." := Dir]> (<[" " := File "x"]> ∅)) [].

(** C6 as written, for the paths at which a file exists: whatever the
    path, [createFile] reports that a file already exists and leaves
    the file as it was. *)
Definition refuses_every_existing_file (ed : Edition) : Prop :=
  forall w p c d,
    files w !! p = Some (File d) ->
    exists r w',
      createFile ed (Some p) c w = (inr r, w')
      /\ reports "already exists" r = true
      /\ files w' !! p = Some (File d).

(** The results the theorems of C6 and C7 name are such reports. *)
Lemma refusals_are_reported (ed : Edition) :
  reports "already exists" (failure (already_exists ed "a.txt")) = true
  /\ reports "is a directory"
       (failure (icon ed "⚠️ " ++ "'" ++ "docs"
                 ++ "' is a directory. Use a directory-specific tool to delete folders."))
     = true.
Proof. destruct ed; split; vm_compute; reflexivity. Qed.

(** It fails at a file whose name is blank: the guard answers before
    [fs.access] is called, with the invalid-argument failure. *)
Lemma createFile_blank_name :
  createFile ServerTs (Some " ") (Some "z") spaced
  = (inr (path_required ServerTs), spaced)
  /\ reports "already exists" (path_required ServerTs) = false.
Proof. split; vm_compute; reflexivity. Qed.

Lemma createFile_existing_blank_name :
  ~ refuses_every_existing_file ServerTs.
Proof.
  intros H.
  destruct (H spaced " " (Some "z") "x" eq_refl) as (r & w' & Hrun & Hr & _).
  rewrite (proj1 createFile_blank_name) in Hrun.
  injection Hrun as <- _. discriminate.
Qed.

(** C7 as written: whatever the path, [deleteFile] at a directory
    reports that the path is a directory and leaves the disk as it
    was. *)
Definition refuses_every_directory (ed : Edition) : Prop :=
  forall w p,
    files w !! p = Some Dir ->
    exists r w',
      deleteFile ed (Some p) w = (inr r, w')
      /\ reports "is a directory" r = true
      /\ files w' = files w.

(** It fails at the directory of the sample disk whose name is three
    spaces: the guard answers before [fs.stat] is called. *)
Lemma deleteFile_blank_name :
  deleteFile ServerTs (Some "   ") sample
  = (inr (path_required ServerTs), sample)
  /\ reports "is a directory" (path_required ServerTs) = false.
Proof. split; vm_compute; reflexivity. Qed.

Lemma deleteFile_directory_blank_name :
  ~ refuses_every_directory ServerTs.
Proof.
  intros H.
  destruct (H sample "   " eq_refl) as (r & w' & Hrun & Hr & _).
  rewrite (proj1 deleteFile_blank_name) in Hrun.
  injection Hrun as <- _. discriminate.
Qed.




(** The working directory matters to a create in the root: [parentDir]
    of [/c.txt] is [.], not [/], so on a disk that has the root but not
    the working directory the create is refused. *)
Example createFile_root_checks_cwd :
  createFile ServerTs (Some "/c.txt") (Some "hello")
    (mkWorld (<["/" := Dir]> ∅) [])
  = (inr (failure ("❌ Parent directory " ++ dq ++ "." ++ dq
                   ++ " does not exist.")),
     mkWorld (<["/" := Dir]> ∅) [Access "/c.txt"; Access "."])
  /\ parent "/c.txt" = "/".
Proof. split; vm_compute; reflexivity. Qed.

End ToolhostSpec.

(* ===================================================================== *)
(** ** The session table *)
(* ===================================================================== *)

Module SessionSpec.
Import Server.

(** No session is recorded under the empty identifier, and every
    transport in the table was created by the endpoint. *)
Definition well_formed (st : Endpoint) : Prop :=
  transports st !! "" = None
  /\ forall sid t, transports st !! sid = Some t ->
       object_id t < created st /\ mcp t < created st.

(** A generator for the examples. *)
Definition sample_uuid (n : nat) : string :=
  "session-" ++ pretty (N.of_nat n).

Section Table.

Variable randomUUID : nat -> string.
Variable initializes : option string -> Request -> bool.

Local Abbreviation post := (post_mcp randomUUID initializes).

Lemma known_Some (sid : option string) (table : gmap string Transport)
    (t : Transport) :
  known sid table = Some (Session t) ->
  exists s, sid = Some s /\ s <> "" /\ table !! s = Some t.
Proof.
  unfold known. destruct sid as [s|]; [|discriminate].
  destruct (Js.falsy s) eqn:Hf; [discriminate|].
  destruct (table !! s) as [t'|] eqn:Ht.
  - intros H. inversion H; subst t'. exists s.
    split; [reflexivity|]. split; [|exact Ht].
    intros ->. discriminate.
  - destruct (inherited s); discriminate.
Qed.

Lemma known_lookup (s : string) (table : gmap string Transport)
    (t : Transport) :
  s <> "" -> table !! s = Some t -> known (Some s) table = Some (Session t).
Proof.
  intros Hs Ht. unfold known, Js.falsy.
  destruct (String.eqb_spec s ""); [contradiction|].
  rewrite Ht. reflexivity.
Qed.

(** [known] finds nothing exactly for a header that is absent or
    empty, or that names neither a recorded session nor an inherited
    member. *)
Lemma known_None (sid : option string) (table : gmap string Transport) :
  known sid table = None
  <-> sid = None \/ sid = Some ""
      \/ exists s, sid = Some s /\ table !! s = None /\ inherited s = false.
Proof.
  unfold known, Js.falsy. split.
  - destruct sid as [s|]; [|auto].
    destruct (String.eqb_spec s "") as [->|Hs]; [auto|].
    destruct (table !! s) as [t|] eqn:Ht; [discriminate|].
    destruct (inherited s) eqn:Hi; [discriminate|].
    intros _. right. right. exists s. auto.
  - intros [->|[->|(s & -> & Ht & Hi)]]; try reflexivity.
    rewrite Ht, Hi. destruct (s =? "")%string; reflexivity.
Qed.

Lemma known_member (s : string) (table : gmap string Transport) :
  table !! s = None -> inherited s = true ->
  known (Some s) table = Some (Member s).
Proof.
  intros Ht Hi. unfold known, Js.falsy.
  destruct (String.eqb_spec s "") as [->|Hs]; [discriminate|].
  rewrite Ht, Hi. reflexivity.
Qed.

Lemma well_formed_boot : well_formed boot.
Proof.
  unfold well_formed, boot. cbn [transports]. split.
  - apply lookup_empty.
  - intros sid t H. rewrite lookup_empty in H. discriminate.
Qed.

(** Recording a created transport under a generated identifier keeps
    the table well formed. *)
Lemma well_formed_record (st : Endpoint) (t : Transport) (sid : string)
    (ids : gmap nat string) (n k : nat) :
  well_formed st -> sid <> "" ->
  object_id t < n -> mcp t < n -> created st <= n ->
  well_formed (mkEndpoint (onsessioninitialized t sid (transports st))
                 ids n k).
Proof.
  intros [Hempty Hwf] Hsid Ho Hm Hn. unfold well_formed, onsessioninitialized.
  cbn [transports created]. split.
  - rewrite lookup_insert_ne by assumption. exact Hempty.
  - intros sid' t' H. rewrite lookup_insert in H. case_decide.
    + inversion H; subst. split; assumption.
    + apply Hwf in H. lia.
Qed.

(** The transport a request is handed to, when it is handed to one. *)
Definition chosen (req : Request) (st : Endpoint) : Transport :=
  match known (session_header req) (transports st) with
  | Some (Session t) => t
  | _ => mkTransport (S (created st)) (created st)
  end.

(** Does the header name an inherited member of the table? *)
Definition hits_member (req : Request) (st : Endpoint) : bool :=
  match known (session_header req) (transports st) with
  | Some (Member _) => true
  | _ => false
  end.

(** A request whose header names an inherited member is not handled:
    the handler throws and the state is as it was. *)
Lemma post_thrown (req : Request) (st : Endpoint) :
  hits_member req st = true ->
  post req st
  = (inl "TypeError: transport.handleRequest is not a function", st).
Proof.
  unfold hits_member, post_mcp.
  destruct (known (session_header req) (transports st)) as [[t|n]|];
    try discriminate.
  reflexivity.
Qed.

(** Any other request is handled by the transport chosen for it. *)
Lemma post_handled (req : Request) (st : Endpoint) :
  hits_member req st = false ->
  let fresh :=
    match known (session_header req) (transports st) with
    | Some _ => 0
    | None => 2
    end in
  post req st
  = if initializes (sessionId st !! object_id (chosen req st)) req then
      (inr (mkResponse (chosen req st) (Some (randomUUID (drawn st)))),
       mkEndpoint
         (<[randomUUID (drawn st) := chosen req st]> (transports st))
         (<[object_id (chosen req st) := randomUUID (drawn st)]>
            (sessionId st))
         (fresh + created st) (S (drawn st)))
    else
      (inr (mkResponse (chosen req st) None),
       mkEndpoint (transports st) (sessionId st) (fresh + created st)
                  (drawn st)).
Proof.
  unfold hits_member, post_mcp, chosen.
  destruct (known (session_header req) (transports st)) as [[t|n]|];
    try discriminate; intros _;
    unfold connect_new, handleRequest, onsessioninitialized;
    cbn [sessionId object_id drawn transports created];
    destruct (initializes _ req); cbn [plus]; try reflexivity;
    destruct st; reflexivity.
Qed.

Lemma known_None_handled (req : Request) (st : Endpoint) :
  known (session_header req) (transports st) = None ->
  hits_member req st = false.
Proof. unfold hits_member. intros ->. reflexivity. Qed.

Lemma known_Session_handled (req : Request) (st : Endpoint) (t : Transport) :
  known (session_header req) (transports st) = Some (Session t) ->
  hits_member req st = false.
Proof. unfold hits_member. intros ->. reflexivity. Qed.

(** A request that names a session of the table is handled by the
    transport recorded for it; nothing is created. *)
Lemma post_reuse (req : Request) (st : Endpoint) (t : Transport) :
  known (session_header req) (transports st) = Some (Session t) ->
  post req st
  = if initializes (sessionId st !! object_id t) req then
      (inr (mkResponse t (Some (randomUUID (drawn st)))),
       mkEndpoint (<[randomUUID (drawn st) := t]> (transports st))
                  (<[object_id t := randomUUID (drawn st)]> (sessionId st))
                  (created st) (S (drawn st)))
    else
      (inr (mkResponse t None),
       mkEndpoint (transports st) (sessionId st) (created st) (drawn st)).
Proof.
  intros Hk. rewrite (post_handled req st (known_Session_handled req st t Hk)).
  unfold chosen. rewrite Hk. reflexivity.
Qed.

(** A request that names nothing the table holds is handled by a
    transport created for it. *)
Lemma post_fresh (req : Request) (st : Endpoint) :
  known (session_header req) (transports st) = None ->
  let t := mkTransport (S (created st)) (created st) in
  post req st
  = if initializes (sessionId st !! object_id t) req then
      (inr (mkResponse t (Some (randomUUID (drawn st)))),
       mkEndpoint (<[randomUUID (drawn st) := t]> (transports st))
                  (<[object_id t := randomUUID (drawn st)]> (sessionId st))
                  (2 + created st) (S (drawn st)))
    else
      (inr (mkResponse t None),
       mkEndpoint (transports st) (sessionId st) (2 + created st) (drawn st)).
Proof.
  intros Hk. rewrite (post_handled req st (known_None_handled req st Hk)).
  unfold chosen. rewrite Hk. reflexivity.
Qed.

(** What one request does to the table and to the counters. *)
Lemma post_state (req : Request) (st : Endpoint) :
  (transports (snd (post req st)) = transports st
   /\ drawn (snd (post req st)) = drawn st)
  \/ (transports (snd (post req st))
      = <[randomUUID (drawn st) := chosen req st]> (transports st)
      /\ drawn (snd (post req st)) = S (drawn st)
      /\ fst (post req st)
        = inr (mkResponse (chosen req st) (Some (randomUUID (drawn st))))).
Proof.
  destruct (hits_member req st) eqn:Hm.
  - rewrite (post_thrown req st Hm). left. split; reflexivity.
  - rewrite (post_handled req st Hm).
    destruct (initializes _ req); [right | left]; repeat split.
Qed.

Lemma well_formed_post (req : Request) (st : Endpoint) :
  (forall n, randomUUID n <> "") ->
  well_formed st -> well_formed (snd (post req st)).
Proof.
  intros Huuid Hwf. destruct (hits_member req st) eqn:Hm.
  - rewrite (post_thrown req st Hm). exact Hwf.
  - rewrite (post_handled req st Hm). unfold chosen.
    destruct (known (session_header req) (transports st)) as [[t|n]|] eqn:Hk.
    + apply known_Some in Hk as (s & _ & _ & Ht).
      apply (proj2 Hwf) in Ht.
      destruct (initializes _ req); cbn [snd plus].
      * apply well_formed_record; auto; lia.
      * destruct st; exact Hwf.
    + unfold hits_member in Hm. rewrite Hk in Hm. discriminate.
    + destruct (initializes _ req); cbn [snd].
      * apply (well_formed_record st); cbn; auto; lia.
      * destruct Hwf as [Hempty Hwf]. split; [exact Hempty|].
        intros sid t' H. cbn [transports created] in *.
        apply Hwf in H. lia.
Qed.

(** C4, as the code has it. In a state the endpoint can reach (the
    table is well formed, which every request preserves) and with a
    generator that never yields the empty identifier: a request whose
    header names a session of the table is handed to the transport
    recorded for it and nothing is created. A request whose header is
    absent or empty, or names neither a recorded session nor a member
    the table inherits ([known_None]), never fails at the endpoint: a
    transport and a registry that no recorded session uses are created
    and the request is handed to that transport. A request whose header
    names an inherited member, such as [constructor], under which no
    session is recorded, is not handled: the handler throws, and
    nothing is created or recorded. The table changes only when the
    transport handling the request initializes a session: it is then
    recorded under the identifier the generator yields (not under an
    identifier the caller supplied) and that identifier is announced;
    otherwise the table is left as it was. A later request that
    supplies an announced identifier is handed to the transport that
    announced it, and nothing is created. *)
Theorem post_mcp_sessions (req : Request) (st : Endpoint) :
  well_formed st ->
  (forall n, randomUUID n <> "") ->
  let st' := snd (post req st) in
  (forall sid t,
      session_header req = Some sid -> transports st !! sid = Some t ->
      exists resp,
        fst (post req st) = inr resp
        /\ served_by resp = t /\ created st' = created st)
  /\ (known (session_header req) (transports st) = None ->
      exists resp,
        fst (post req st) = inr resp
        /\ served_by resp = mkTransport (S (created st)) (created st)
        /\ created st' = 2 + created st
        /\ (forall sid t, transports st !! sid = Some t ->
              object_id t <> object_id (served_by resp)
              /\ mcp t <> mcp (served_by resp)))
  /\ (forall s,
        session_header req = Some s -> transports st !! s = None ->
        inherited s = true ->
        post req st
        = (inl "TypeError: transport.handleRequest is not a function", st))
  /\ (forall resp,
        fst (post req st) = inr resp ->
        if initializes (sessionId st !! object_id (served_by resp)) req then
          transports st'
          = <[randomUUID (drawn st) := served_by resp]> (transports st)
          /\ announced resp = Some (randomUUID (drawn st))
        else
          transports st' = transports st /\ announced resp = None)
  /\ (forall resp sid req2,
        fst (post req st) = inr resp ->
        announced resp = Some sid -> session_header req2 = Some sid ->
        exists resp2,
          fst (post req2 st') = inr resp2
          /\ served_by resp2 = served_by resp
          /\ created (snd (post req2 st')) = created st')
  /\ well_formed st'.
Proof.
  intros Hwf Huuid st'. subst st'.
  split; [|split; [|split; [|split; [|split]]]].
  - intros sid t Hh Ht.
    assert (Hsid : sid <> "").
    { intros ->. rewrite (proj1 Hwf) in Ht. discriminate. }
    pose proof (known_lookup sid (transports st) t Hsid Ht) as Hk.
    rewrite <- Hh in Hk. rewrite (post_reuse req st t Hk).
    destruct (initializes _ req); eexists;
      (split; [reflexivity|]); split; reflexivity.
  - intros Hk. rewrite (post_fresh req st Hk).
    destruct (initializes _ req); eexists; (split; [reflexivity|]);
      cbn [served_by snd created object_id mcp];
      (split; [reflexivity|]); (split; [reflexivity|]);
      intros sid t Ht; apply (proj2 Hwf) in Ht; lia.
  - intros s Hh Ht Hi. apply post_thrown. unfold hits_member.
    rewrite Hh, (known_member s (transports st) Ht Hi). reflexivity.
  - intros resp Hresp. destruct (hits_member req st) eqn:Hm.
    + rewrite (post_thrown req st Hm) in Hresp. discriminate.
    + rewrite (post_handled req st Hm) in Hresp |- *.
      destruct (initializes (sessionId st !! object_id (chosen req st)) req)
        eqn:Hi; cbn [fst snd] in *; inversion Hresp; subst resp;
        cbn [served_by announced transports]; rewrite Hi;
        split; reflexivity.
  - intros resp sid req2 Hresp Hann Hh.
    destruct (hits_member req st) eqn:Hm.
    + rewrite (post_thrown req st Hm) in Hresp. discriminate.
    + rewrite (post_handled req st Hm) in Hresp |- *.
      destruct (initializes (sessionId st !! object_id (chosen req st)) req);
        cbn [fst snd] in *; inversion Hresp; subst resp;
        cbn [announced served_by] in *; [|discriminate].
      inversion Hann; subst sid.
      match goal with
      | |- context [post req2 ?s] => set (st1 := s)
      end.
      assert (Hk : known (session_header req2) (transports st1)
                   = Some (Session (chosen req st))).
      { rewrite Hh. apply known_lookup; [apply Huuid|].
        subst st1. cbn [transports]. apply lookup_insert_eq. }
      rewrite (post_reuse req2 st1 _ Hk).
      destruct (initializes _ req2); eexists;
        (split; [reflexivity|]); split; reflexivity.
  - apply well_formed_post; assumption.
Qed.

End Table.

(** Two requests of a caller: the handshake, without a header, and a
    request carrying the identifier the handshake announced. *)
Definition handshake : Request := mkRequest None "initialize".
Definition follow_up : Request := mkRequest (Some "session-0") "tools/call".

(** A first request that is not a handshake. *)
Definition stray : Request := mkRequest None "tools/call".

(** A request whose header names a member every object inherits. *)
Definition odd : Request := mkRequest (Some "constructor") "initialize".

Lemma sample_uuid_not_empty (n : nat) : sample_uuid n <> "".
Proof. unfold sample_uuid. cbn. discriminate. Qed.

(** The endpoint of the examples. *)
Definition sample_post
    : Request -> Endpoint -> (string + Response) * Endpoint :=
  post_mcp sample_uuid sdk_initializes.

Lemma post_mcp_sessions_witness :
  let post := sample_post in
  transports (snd (post handshake boot))
  = <["session-0" := mkTransport 1 0]> ∅
  /\ fst (post handshake boot)
    = inr (mkResponse (mkTransport 1 0) (Some "session-0"))
  /\ fst (post follow_up (snd (post handshake boot)))
    = inr (mkResponse (mkTransport 1 0) None)
  /\ created (snd (post follow_up (snd (post handshake boot)))) = 2.
Proof.
  intros post. subst post. unfold sample_post.
  destruct (post_mcp_sessions sample_uuid sdk_initializes handshake boot
              well_formed_boot sample_uuid_not_empty)
    as (_ & Hnew & _ & Hrec & Hnext & _).
  destruct (Hnew eq_refl) as (resp & Hresp & Hserved & Hcreated & _).
  destruct (Hrec resp Hresp) as [Htable Hann].
  destruct (Hnext resp "session-0" follow_up Hresp Hann eq_refl)
    as (resp2 & Hresp2 & Hsame & Hnone).
  split; [|split; [|split]].
  - rewrite Htable, Hserved. reflexivity.
  - reflexivity.
  - reflexivity.
  - rewrite Hnone. exact Hcreated.
Defined.

(** C4 as written: every request whose identifier is absent or is not
    in the table is handled and leaves the session it created in the
    table. *)
Definition records_every_new_session (randomUUID : nat -> string)
    (initializes : option string -> Request -> bool) : Prop :=
  forall req st,
    (forall s, session_header req = Some s -> transports st !! s = None) ->
    exists resp sid,
      fst (post_mcp randomUUID initializes req st) = inr resp
      /\ transports (snd (post_mcp randomUUID initializes req st)) !! sid
        = Some (served_by resp).

(** It fails for a first request that is not a handshake: the transport
    created for it is never recorded, and the next request of the same
    caller gets another one. *)
Lemma post_mcp_stray_not_recorded :
  ~ records_every_new_session sample_uuid sdk_initializes.
Proof.
  intros H.
  destruct (H stray boot) as (resp & sid & _ & Hsid); [discriminate|].
  change (transports (snd (post_mcp sample_uuid sdk_initializes stray boot)))
    with (∅ : gmap string Transport) in Hsid.
  rewrite lookup_empty in Hsid. discriminate.
Qed.

Lemma post_mcp_stray_twice :
  let post := sample_post in
  transports (snd (post stray boot)) = ∅
  /\ fst (post stray boot) = inr (mkResponse (mkTransport 1 0) None)
  /\ fst (post stray (snd (post stray boot)))
    = inr (mkResponse (mkTransport 3 2) None).
Proof. repeat split. Qed.

(** A header that names an inherited member takes the branch of the
    known sessions: nothing is created, and the call of
    [handleRequest] on the member throws. *)
Example post_mcp_inherited_name :
  sample_post odd boot
  = (inl "TypeError: transport.handleRequest is not a function", boot)
  /\ known (session_header odd) (transports boot)
    = Some (Member "constructor").
Proof. split; reflexivity. Qed.

End SessionSpec.

(* ===================================================================== *)
(** ** The tool-call loop of the driver *)
(* ===================================================================== *)

Module DriverSpec.
Import Fs Server Client System.

(** What a tool call sends to the toolhost. *)
Definition request (c : ToolCall) : string * Args :=
  (function_name c, function_arguments c).

(** The assistant message that records the calls of a reply. *)
Definition recorded (calls : list ToolCall) : Message :=
  mkMessage assistant "" (Some calls) None.

Lemma dispatch_settles (tools : list Tool) (n : string) (a : Args)
    (w : World) :
  exists r w', dispatch tools n a w = (inr r, w').
Proof.
  unfold dispatch. destruct (find_tool tools n) as [t|]; [|eexists _, _; reflexivity].
  destruct (validate (inputSchema t) a) as [[|k bad] v];
    [|eexists _, _; reflexivity].
  unfold try_catch. destruct (handler t v w) as [[e|r] w'];
    eexists _, _; reflexivity.
Qed.

Lemma dispatch_unknown (tools : list Tool) (n : string) (a : Args)
    (w : World) :
  find_tool tools n = None ->
  dispatch tools n a w = (inr (failure ("Tool " ++ n ++ " not found")), w).
Proof.
  intros H. unfold dispatch. rewrite H. reflexivity.
Qed.

Section Connected.

Variable ed : Edition.
Variable cwd : string.

Local Abbreviation call := (System.callTool ed cwd).

(** The toolhost answers every call, and logs it. *)
Lemma callTool_answers (n : string) (a : Args) (h : Toolhost) :
  exists r w,
    call n a h = (inr r, mkToolhost w (received h ++ [(n, a)]))
    /\ (find_tool (getServer ed cwd) n = None ->
        r = failure ("Tool " ++ n ++ " not found") /\ w = disk h).
Proof.
  unfold System.callTool.
  destruct (find_tool (getServer ed cwd) n) as [t|] eqn:Hf.
  - destruct (dispatch_settles (getServer ed cwd) n a (disk h))
      as (r & w & ->).
    exists r, w. split; [reflexivity | discriminate].
  - rewrite dispatch_unknown by assumption.
    eexists _, _. split; [reflexivity | intros _; split; reflexivity].
Qed.

(** The loop over a batch runs to its end: one answer per call, in the
    order of the calls, each call delivered to the toolhost. *)
Lemma forEach_runs (calls : list ToolCall) (d : Driver Toolhost) :
  exists d' results,
    forEach call calls d = (inr tt, d')
    /\ length results = length calls
    /\ messages d' = (messages d ++ zip_with answer calls results)%list
    /\ submitted d' = submitted d
    /\ received (host d')
      = (received (host d) ++ map request calls)%list
    /\ (forall i c,
          calls !! i = Some c ->
          find_tool (getServer ed cwd) (function_name c) = None ->
          results !! i
          = Some (failure ("Tool " ++ function_name c ++ " not found"))).
Proof.
  revert d. induction calls as [|c rest IH]; intros d.
  - exists d, []. cbn. rewrite !app_nil_r. repeat split.
    intros i c H. rewrite lookup_nil in H. discriminate.
  - cbn [forEach].
    destruct (callTool_answers (function_name c) (function_arguments c)
                (host d)) as (r & w & Hcall & Hunknown).
    rewrite Hcall.
    destruct (IH (push (answer c r)
                    (mkDriver (messages d)
                       (mkToolhost w (received (host d) ++ [request c]))
                       (submitted d))))
      as (d' & results & Hrun & Hlen & Hmsg & Hsub & Hrec & Hfail).
    exists d', (r :: results). split; [exact Hrun|].
    cbn [length zip_with map]. rewrite Hlen, Hmsg, Hsub, Hrec.
    cbn [push messages host submitted received].
    rewrite <- !app_assoc. repeat split.
    intros [|i] c' Hc' Hnone; cbn in Hc' |- *.
    + inversion Hc'; subst c'. f_equal. apply Hunknown. exact Hnone.
    + eapply Hfail; eassumption.
Qed.

Variable llm : list Message -> option Message.

(** C3. Whatever the calls of a batch and whatever their outcomes, the
    loop over the batch runs to its end: every call is delivered to the
    toolhost, in order, and every call is answered by one tool-result
    message; a call that names a tool the toolhost does not have is
    answered with the error-flagged result of the toolhost and the
    calls after it are delivered and answered like the others. The
    model is not asked anything meanwhile. *)
Theorem batch_runs_every_call (calls : list ToolCall)
    (d : Driver Toolhost) :
  exists d' results,
    forEach call calls d = (inr tt, d')
    /\ length results = length calls
    /\ messages d' = (messages d ++ zip_with answer calls results)%list
    /\ received (host d')
      = (received (host d) ++ map request calls)%list
    /\ submitted d' = submitted d
    /\ (forall i c,
          calls !! i = Some c ->
          find_tool (getServer ed cwd) (function_name c) = None ->
          results !! i
          = Some (failure ("Tool " ++ function_name c ++ " not found"))).
Proof.
  destruct (forEach_runs calls d)
    as (d' & results & Hrun & Hlen & Hmsg & Hsub & Hrec & Hfail).
  exists d', results. repeat split; assumption.
Qed.

(** The transcript submitted after the batch of a reply: the one the
    reply answered, the record of its calls, and the answers. *)
Definition resolved (asked : list Message) (calls : list ToolCall)
    (results : list ToolResult) : list Message :=
  (asked ++ [recorded calls] ++ zip_with answer calls results)%list.

(** One pass of the chat loop whose first reply carries tool calls. *)
Lemma turn_with_calls (userInput : string) (d : Driver Toolhost) :
  let asked := (messages d ++ [say user userInput])%list in
  let calls := toolCalls (reply llm asked) in
  calls <> [] ->
  exists d' results,
    turn call llm userInput d = (inr tt, d')
    /\ length results = length calls
    /\ submitted d'
      = (submitted d ++ [asked; resolved asked calls results])%list
    /\ messages d'
      = (resolved asked calls results
         ++ [say assistant
               (content (reply llm (resolved asked calls results)))])%list
    /\ received (host d')
      = (received (host d) ++ map request calls)%list.
Proof.
  intros asked calls Hcalls. unfold turn, callLLM.
  cbn [push messages host submitted].
  fold asked. fold calls.
  destruct calls as [|c0 rest] eqn:Hc; [contradiction|]. rewrite <- Hc.
  destruct (forEach_runs calls
              (push (recorded calls)
                 (mkDriver asked (host d) (submitted d ++ [asked]))))
    as (d1 & results & Hrun & Hlen & Hmsg & Hsub & Hrec & _).
  unfold recorded in Hrun. rewrite Hrun.
  cbn [push messages host submitted] in *.
  exists (push (say assistant (content (reply llm (messages d1))))
            (mkDriver (messages d1) (host d1)
               (submitted d1 ++ [messages d1]))), results.
  cbn [push messages host submitted].
  unfold resolved. rewrite Hmsg, Hsub, Hrec, <- !app_assoc.
  repeat split; try reflexivity. exact Hlen.
Qed.

Lemma answers_keys (calls : list ToolCall) (results : list ToolResult) :
  length results = length calls ->
  map tool_call_id (zip_with answer calls results)
  = map (fun c => Some (correlation c)) calls
  /\ map role (zip_with answer calls results) = map (fun _ => tool) calls
  /\ map content (zip_with answer calls results)
    = map toolOutput results.
Proof.
  revert results. induction calls as [|c calls IH]; intros [|r results] Hlen;
    try discriminate; [repeat split|].
  cbn in Hlen. injection Hlen as Hlen.
  destruct (IH results Hlen) as (Hk & Hr & Hc).
  cbn [zip_with map]. rewrite Hk, Hr, Hc. repeat split.
Qed.

(** One pass of the chat loop whose first reply is a plain answer. *)
Lemma turn_plain (userInput : string) (d : Driver Toolhost) :
  let asked := (messages d ++ [say user userInput])%list in
  toolCalls (reply llm asked) = [] ->
  turn call llm userInput d
  = (inr tt,
     mkDriver (asked ++ [say assistant (content (reply llm asked))])
              (host d) (submitted d ++ [asked])).
Proof.
  intros asked Hplain. unfold turn, callLLM.
  cbn [push messages host submitted]. fold asked. rewrite Hplain.
  reflexivity.
Qed.

(** C1, as the code has it. A reply to the user's message that carries
    no tool call ends the pass: it is appended as the answer and
    nothing is executed. When it carries tool calls, they are executed
    and answered, the model is asked again exactly once, and the content
    of that second reply is appended as a plain assistant message,
    which ends the pass: the tool calls the second reply may carry are
    neither recorded in the transcript nor executed, the toolhost having
    received the calls of the first reply only. *)
Theorem turn_asks_once_more (userInput : string) (d : Driver Toolhost) :
  let asked := (messages d ++ [say user userInput])%list in
  let calls := toolCalls (reply llm asked) in
  (calls = [] ->
   turn call llm userInput d
   = (inr tt,
      mkDriver (asked ++ [say assistant (content (reply llm asked))])
               (host d) (submitted d ++ [asked])))
  /\ (calls <> [] ->
      exists d' results,
        turn call llm userInput d = (inr tt, d')
        /\ submitted d'
          = (submitted d ++ [asked; resolved asked calls results])%list
        /\ messages d'
          = (resolved asked calls results
             ++ [say assistant
                   (content (reply llm (resolved asked calls results)))])%list
        /\ received (host d')
          = (received (host d) ++ map request calls)%list).
Proof.
  intros asked calls. split.
  - apply turn_plain.
  - intros Hcalls.
    destruct (turn_with_calls userInput d Hcalls)
      as (d' & results & Hrun & _ & Hsub & Hmsg & Hrec).
    exists d', results. repeat split; assumption.
Qed.

(** C2, as the code has it. For the reply to the user's message, when
    it carries N tool calls (N at least one): the transcript submitted
    to the model next is the one that reply answered, followed by one
    assistant message with empty content that records the calls, and
    then by exactly N tool messages, one per call and in the order of
    the calls, each keyed by the identifier of its call, or by the name
    of the tool when the call has no identifier. *)
Theorem turn_answers_calls_in_order (userInput : string)
    (d : Driver Toolhost) :
  let asked := (messages d ++ [say user userInput])%list in
  let calls := toolCalls (reply llm asked) in
  calls <> [] ->
  exists d' results,
    turn call llm userInput d = (inr tt, d')
    /\ length results = length calls
    /\ submitted d'
      = (submitted d
         ++ [asked;
             asked ++ [mkMessage assistant "" (Some calls) None]
             ++ zip_with answer calls results])%list
    /\ map role (zip_with answer calls results)
      = map (fun _ => tool) calls
    /\ map tool_call_id (zip_with answer calls results)
      = map (fun c => Some (match id c with
                            | Some i => i
                            | None => function_name c
                            end)) calls.
Proof.
  intros asked calls Hcalls.
  destruct (turn_with_calls userInput d Hcalls)
    as (d' & results & Hrun & Hlen & Hsub & _ & _).
  destruct (answers_keys calls results Hlen) as (Hk & Hr & _).
  exists d', results. repeat split; assumption.
Qed.

End Connected.

(** *** Examples *)

Definition read_a : ToolCall :=
  mkCall (Some "call-1") "readFile" (<["path" := "a.txt"]> ∅).

Definition read_b : ToolCall :=
  mkCall None "readFile" (<["path" := "docs/b.txt"]> ∅).

Definition shred : ToolCall := mkCall (Some "call-2") "shredFile" ∅.

(** A model that asks for a file when the user has just spoken and
    answers once it has the tool results. *)
Definition helpful (transcript : list Message) : option Message :=
  match last transcript with
  | Some (mkMessage user _ _ _) =>
      Some (mkMessage assistant "" (Some [read_a; read_b]) None)
  | _ => Some (say assistant "Both files are short.")
  end.

(** A model that asks for a tool call in every reply. *)
Definition insistent (_ : list Message) : option Message :=
  Some (mkMessage assistant "" (Some [read_a]) None).

Definition sample_call
    : string -> Args -> Toolhost -> (string + ToolResult) * Toolhost :=
  System.callTool ServerTs "/srv".

Definition online : Toolhost := mkToolhost ToolhostSpec.sample [].

Definition start : Driver Toolhost :=
  mkDriver [opening SystemPrompt] online [].

(** A batch whose second call names a tool the toolhost does not have:
    the third call is executed and answered all the same. *)
Example batch_with_unknown_tool :
  exists d',
    forEach sample_call [read_a; shred; read_b] start = (inr tt, d')
    /\ messages d'
      = [opening SystemPrompt;
         mkMessage tool (shown ServerTs "a.txt" "x") None (Some "call-1");
         mkMessage tool "Tool shredFile not found" None (Some "call-2");
         mkMessage tool (shown ServerTs "docs/b.txt" "y") None
           (Some "readFile")]
    /\ received (host d') = [request read_a; request shred; request read_b].
Proof.
  eexists. split; [vm_compute; reflexivity|].
  split; vm_compute; reflexivity.
Qed.

Lemma turn_asks_once_more_witness :
  let asked := (messages start ++ [say user "read both"])%list in
  let calls := toolCalls (reply helpful asked) in
  calls <> []
  /\ exists d' results,
       turn sample_call helpful "read both" start = (inr tt, d')
       /\ submitted d'
         = (submitted start ++ [asked; resolved asked calls results])%list
       /\ messages d'
         = (resolved asked calls results
            ++ [say assistant
                  (content (reply helpful
                              (resolved asked calls results)))])%list
       /\ received (host d')
         = (received (host start) ++ map request calls)%list.
Proof.
  intros asked calls.
  assert (Hcalls : calls <> []) by (vm_compute; discriminate).
  split; [exact Hcalls|].
  exact (proj2 (turn_asks_once_more ServerTs "/srv" helpful "read both"
                  start) Hcalls).
Defined.

Lemma turn_answers_calls_in_order_witness :
  let asked := (messages start ++ [say user "read both"])%list in
  let calls := toolCalls (reply helpful asked) in
  calls <> []
  /\ exists d' results,
       turn sample_call helpful "read both" start = (inr tt, d')
       /\ length results = length calls
       /\ submitted d'
         = (submitted start
            ++ [asked;
                asked ++ [mkMessage assistant "" (Some calls) None]
                ++ zip_with answer calls results])%list
       /\ map role (zip_with answer calls results)
         = map (fun _ => tool) calls
       /\ map tool_call_id (zip_with answer calls results)
         = map (fun c => Some (match id c with
                               | Some i => i
                               | None => function_name c
                               end)) calls.
Proof.
  intros asked calls.
  assert (Hcalls : calls <> []) by (vm_compute; discriminate).
  split; [exact Hcalls|].
  exact (turn_answers_calls_in_order ServerTs "/srv" helpful "read both"
           start Hcalls).
Defined.

(** C1 as written: a pass of the loop ends only once the model has
    produced a plain answer, so the last reply obtained in a pass
    carries no tool call. *)
Definition ends_with_plain_answer
    (call : string -> Args -> Toolhost -> (string + ToolResult) * Toolhost)
    (llm : list Message -> option Message) : Prop :=
  forall userInput (d d' : Driver Toolhost),
    turn call llm userInput d = (inr tt, d') ->
    exists asked,
      last (submitted d') = Some asked /\ toolCalls (reply llm asked) = [].

(** It fails with a model that asks for a tool in its second reply too:
    the pass ends on that reply. *)
Lemma turn_ends_on_second_reply :
  ~ ends_with_plain_answer sample_call insistent.
Proof.
  intros H.
  destruct (H "read a.txt" start
              (snd (turn sample_call insistent "read a.txt" start)))
    as (asked & _ & Hplain).
  - vm_compute. reflexivity.
  - discriminate Hplain.
Qed.

(** What that pass leaves: two transcripts submitted, one call
    received by the toolhost, and a transcript whose last message is
    the second reply reduced to its content. *)
Example insistent_turn :
  let d' := snd (turn sample_call insistent "read a.txt" start) in
  length (submitted d') = 2
  /\ received (host d') = [request read_a]
  /\ messages d'
    = [opening SystemPrompt; say user "read a.txt"; recorded [read_a];
       mkMessage tool (shown ServerTs "a.txt" "x") None (Some "call-1");
       say assistant ""].
Proof.
  split; [|split]; vm_compute; reflexivity.
Qed.

(** C2 as written: whenever a reply obtained from the model carries
    tool calls, the transcript submitted next starts with the
    transcript that reply answered, the record of its calls and one
    answer per call. *)
Definition answers_every_reply
    (call : string -> Args -> Toolhost -> (string + ToolResult) * Toolhost)
    (llm : list Message -> option Message) (v : Variant) : Prop :=
  forall inputs h d',
    main call llm v inputs h = (inr tt, d') ->
    forall i asked next,
      submitted d' !! i = Some asked ->
      submitted d' !! S i = Some next ->
      toolCalls (reply llm asked) <> [] ->
      exists results rest,
        length results = length (toolCalls (reply llm asked))
        /\ next
          = (resolved asked (toolCalls (reply llm asked)) results
             ++ rest)%list.

(** It fails for the reply that follows a batch: its calls get neither
    a record nor an answer before the next submission. *)
Lemma second_reply_not_answered :
  ~ answers_every_reply sample_call insistent SystemPrompt.
Proof.
  intros H.
  pose (run := main sample_call insistent SystemPrompt
                 ["read a.txt"; "again"] online).
  destruct (H ["read a.txt"; "again"] online (snd run))
    with (i := 1) (asked := default [] (submitted (snd run) !! 1))
         (next := default [] (submitted (snd run) !! 2))
    as (results & rest & Hlen & Hnext).
  - vm_compute. reflexivity.
  - vm_compute. reflexivity.
  - vm_compute. reflexivity.
  - discriminate.
  - vm_compute in Hnext. discriminate Hnext.
Qed.

End DriverSpec.

(* ===================================================================== *)
(** ** More on strings and paths *)
(* ===================================================================== *)

Module PathFacts.

Lemma append_assoc (a b c : string) : (a ++ b) ++ c = a ++ (b ++ c).
Proof.
  induction a as [|x a IH]; [reflexivity|].
  change (String x ((a ++ b) ++ c) = String x (a ++ (b ++ c))).
  f_equal. exact IH.
Qed.

Lemma split_not_nil (s : string) : Js.split s <> [].
Proof.
  destruct s as [|c s]; cbn [Js.split]; [discriminate|].
  destruct (Ascii.eqb c "/"); [discriminate|].
  destruct (Js.split s); discriminate.
Qed.

(** Joining what [split] returns gives the path back. *)
Lemma join_split (s : string) : Js.join "/" (Js.split s) = s.
Proof.
  unfold Js.join. induction s as [|c s IH]; [reflexivity|].
  cbn [Js.split]. destruct (Ascii.eqb_spec c "/") as [-> | Hc].
  - destruct (Js.split s) as [|h t] eqn:Hs.
    + exfalso. exact (split_not_nil s Hs).
    + cbn [String.concat]. cbn [String.concat] in IH. rewrite IH.
      reflexivity.
  - destruct (Js.split s) as [|h t] eqn:Hs.
    + exfalso. exact (split_not_nil s Hs).
    + cbn [String.concat] in IH |- *. destruct t as [|h' t].
      * rewrite IH. reflexivity.
      * rewrite <- IH. reflexivity.
Qed.

(** A name without a slash. *)
Fixpoint slashless (s : string) : bool :=
  match s with
  | EmptyString => true
  | String c s' => negb (Ascii.eqb c "/") && slashless s'
  end.

Lemma split_slashless (n : string) :
  slashless n = true -> Js.split n = [n].
Proof.
  induction n as [|c n IH]; [reflexivity|].
  cbn [slashless Js.split]. intros H. apply andb_true_iff in H as [Hc Hn].
  apply negb_true_iff in Hc. rewrite Hc, (IH Hn). reflexivity.
Qed.

Lemma split_app (d n : string) :
  Js.split (d ++ "/" ++ n) = (Js.split d ++ Js.split n)%list.
Proof.
  induction d as [|c d IH].
  - destruct (Js.split n) eqn:Hn; [exfalso; exact (split_not_nil n Hn)|].
    change (Js.split ("" ++ "/" ++ n)) with ("" :: Js.split n).
    rewrite Hn. reflexivity.
  - change (String c d ++ "/" ++ n) with (String c (d ++ "/" ++ n)).
    cbn [Js.split]. rewrite IH.
    destruct (Ascii.eqb c "/"); [reflexivity|].
    destruct (Js.split d) as [|h t] eqn:Hd;
      [exfalso; exact (split_not_nil d Hd)|].
    reflexivity.
Qed.

(** X13. The directory [createFile] checks before writing: for a path
    made of a directory part, a slash and a name without slash, it is
    the directory part, except that for an entry of the root (an empty
    directory part) it is the working directory ["."], as it is for a
    bare name. *)
Theorem parentDir_cases (d n : string) :
  slashless n = true ->
  Server.parentDir n = "."
  /\ Server.parentDir ("/" ++ n) = "."
  /\ (d <> "" -> Server.parentDir (d ++ "/" ++ n) = d).
Proof.
  intros Hn. unfold Server.parentDir, Js.slice_init.
  split; [|split].
  - rewrite (split_slashless n Hn). reflexivity.
  - change ("/" ++ n) with ("" ++ "/" ++ n).
    rewrite split_app, (split_slashless n Hn). reflexivity.
  - intros Hd. rewrite split_app, (split_slashless n Hn).
    rewrite removelast_last, join_split.
    unfold Js.or_else, Js.falsy.
    destruct (String.eqb_spec d ""); [contradiction | reflexivity].
Qed.

Lemma parentDir_cases_witness :
  Server.parentDir "notes.txt" = "."
  /\ Server.parentDir ("/" ++ "notes.txt") = "."
  /\ ("/srv/data" <> "" ->
      Server.parentDir ("/srv/data" ++ "/" ++ "notes.txt") = "/srv/data").
Proof.
  apply (parentDir_cases "/srv/data" "notes.txt"). reflexivity.
Defined.

End PathFacts.

Module TrimFacts.

Lemma trimStart_blank (n : nat) (s : string) :
  String.length s <= n ->
  (Js.blank s = true -> Js.trimStart s = "")
  /\ (Js.blank s = false -> Js.blank (Js.trimStart s) = false).
Proof.
  revert s. induction n as [|n IH]; intros s Hlen.
  - destruct s; [|cbn in Hlen; lia]. split; [reflexivity | discriminate].
  - destruct s as [|c1 s1]; [split; [reflexivity | discriminate]|].
    cbn [String.length] in Hlen. cbn [Js.blank Js.trimStart].
    destruct (Js.ws1 c1) eqn:H1; [apply IH; lia|].
    destruct s1 as [|c2 s2].
    { split; [discriminate|]. intros _. cbn [Js.blank]. rewrite H1.
      reflexivity. }
    cbn [String.length] in Hlen.
    destruct (Js.ws2 c1 c2) eqn:H2; [apply IH; lia|].
    destruct s2 as [|c3 s3].
    { split; [discriminate|]. intros _. cbn [Js.blank]. rewrite H1, H2.
      reflexivity. }
    cbn [String.length] in Hlen.
    destruct (Js.ws3 c1 c2 c3) eqn:H3; [apply IH; lia|].
    split; [discriminate|]. intros _. cbn [Js.blank]. rewrite H1, H2, H3.
    reflexivity.
Qed.

Lemma trimEnd_empty (s : string) :
  Js.trimEnd s = "" <-> Js.blank s = true.
Proof.
  destruct s as [|c s]; [split; reflexivity|].
  cbn [Js.trimEnd]. destruct (Js.blank (String c s)).
  - split; reflexivity.
  - split; discriminate.
Qed.

Lemma trim_empty (s : string) : Js.trim s = "" <-> Js.blank s = true.
Proof.
  unfold Js.trim. rewrite trimEnd_empty.
  destruct (trimStart_blank (String.length s) s (le_n _)) as [Hb Hn].
  destruct (Js.blank s) eqn:Hs.
  - rewrite (Hb eq_refl). split; reflexivity.
  - rewrite (Hn eq_refl). split; discriminate.
Qed.

(** X26. The guard of the handlers and the prompt of the driver agree
    with [trim]: a path is refused by the guard exactly when trimming
    it leaves nothing, and an answer typed at the prompt becomes the
    empty input exactly when it is made of white space only; such an
    answer is not the exit word. *)
Theorem blank_is_trim_empty (s : string) :
  (Server.bad_path (Some s) = true <-> Js.trim s = "")
  /\ (Client.promptInput s = "" <-> Js.blank s = true)
  /\ (Js.blank s = true -> Client.is_exit (Client.promptInput s) = false).
Proof.
  unfold Client.promptInput. split; [|split].
  - rewrite trim_empty. unfold Server.bad_path. split.
    + intros H. apply orb_true_iff in H as [H | H]; [|exact H].
      apply JsFacts.falsy_blank, H.
    + intros H. rewrite H. apply orb_true_r.
  - apply trim_empty.
  - intros H. apply trim_empty in H. rewrite H. reflexivity.
Qed.

End TrimFacts.

(* ===================================================================== *)
(** ** More on the tool handlers *)
(* ===================================================================== *)

Module ToolhostMore.
Import Fs FsCalls Server ToolhostSpec.

(** A call of one of the six filesystem handlers, with its arguments. *)
Inductive Invocation : Type :=
| Update (path : option string) (content : string)
| Delete (path : option string)
| Read (path : option string)
| Append (path : option string) (content : string)
| Create (path content : option string)
| List (params : option (option string)).

Definition invoke (ed : Edition) (i : Invocation) : Io ToolResult :=
  match i with
  | Update path content => updateFile ed path content
  | Delete path => deleteFile ed path
  | Read path => readFile ed path
  | Append path content => appendToFile ed path content
  | Create path content => createFile ed path content
  | List params => listFiles ed params
  end.

(** The [path] argument of an invocation. *)
Definition target (i : Invocation) : option string :=
  match i with
  | Update path _ | Delete path | Read path | Append path _
  | Create path _ => path
  | List params => match params with Some p => p | None => None end
  end.

(** The handlers that only read. *)
Definition reads_only (i : Invocation) : bool :=
  match i with
  | Read _ | List _ => true
  | _ => false
  end.

(** The path a call of [fs] is made on. *)
Definition call_path (c : Call) : string :=
  match c with
  | Access p | Stat p | ReadFile p | WriteFile p _ | AppendFile p _
  | Unlink p | Readdir p => p
  end.

(** The calls that can change the disk. *)
Definition changes (c : Call) : bool :=
  match c with
  | WriteFile _ _ | AppendFile _ _ | Unlink _ => true
  | _ => false
  end.

(** Unfold an invocation whose path passed or failed the guard. *)
Ltac run_handler Hbad :=
  unfold invoke, updateFile, deleteFile, readFile, appendToFile, createFile,
    listFiles, checked;
  rewrite ?Hbad.

(** Every outcome of an invocation, by cases on the guard and on the
    lookups it makes. *)
Ltac outcomes ed i w :=
  let p := fresh "p" in
  let Hbad := fresh "Hbad" in
  destruct i as [[p|] ?|[p|]|[p|]|[p|] ?|[p|] ?|[[p|]|]];
  try (destruct (bad_path (Some p)) eqn:Hbad);
  run_handler Hbad; io_cases.

(** X1. No handler ever throws: whatever its arguments and whatever is
    on the disk, each of the six handlers returns a result. *)
Theorem handlers_never_reject (ed : Edition) (i : Invocation) (w : World) :
  exists r w', invoke ed i w = (inr r, w').
Proof.
  outcomes ed i w; eauto.
Qed.

(** X2. A handler that answers with an error-flagged result has left
    every file as it was. *)
Theorem failure_changes_nothing (ed : Edition) (i : Invocation)
    (w w' : World) (r : ToolResult) :
  invoke ed i w = (inr r, w') -> isError r = true -> files w' = files w.
Proof.
  outcomes ed i w; intros Hrun Herr; inversion Hrun; subst;
    try reflexivity; discriminate.
Qed.

(** X3. A handler passes to [fs] only the path it was given, and, in
    [createFile], the parent directory computed from it: the calls it
    makes are added to the log in order, each is on the given path or
    is the [fs.access] of that parent, every call that can change the
    disk ([fs.writeFile], [fs.appendFile], [fs.unlink]) is on the given
    path itself, and when no such call was made the disk is as it
    was. *)
Theorem calls_name_given_path (ed : Edition) (i : Invocation)
    (w w' : World) (r : ToolResult) :
  invoke ed i w = (inr r, w') ->
  exists cs,
    calls w' = (calls w ++ cs)%list
    /\ (forall c, In c cs ->
          target i = Some (call_path c)
          \/ exists p, target i = Some p /\ c = Access (parentDir p))
    /\ (forall c, In c cs -> changes c = true ->
          target i = Some (call_path c))
    /\ (forallb (fun c => negb (changes c)) cs = true ->
        files w' = files w).
Proof.
  outcomes ed i w; cbn [target]; intros Hrun; inversion Hrun; subst;
    cbn [calls files]; rewrite <- ?app_assoc; cbn [app];
    (eexists; split;
     [try reflexivity; symmetry; apply app_nil_r
     |split; [|split];
      [intros c Hc; cbn [In] in Hc;
       repeat (destruct Hc as [<-|Hc]; [eauto|]); destruct Hc
      |intros c Hc; cbn [In] in Hc;
       repeat (destruct Hc as [<-|Hc];
               [cbn; intros; try discriminate; reflexivity|]);
       destruct Hc
      |cbn; intros; try discriminate; reflexivity]]).
Qed.

(** X4. [readFile] and [listFiles] never change the disk, whatever they
    answer. *)
Theorem reading_changes_nothing (ed : Edition) (i : Invocation)
    (w w' : World) (r : ToolResult) :
  reads_only i = true -> invoke ed i w = (inr r, w') ->
  files w' = files w.
Proof.
  intros Hread. destruct i; try discriminate; clear Hread.
  - destruct path as [p|]; [destruct (bad_path (Some p)) eqn:Hbad|];
      run_handler Hbad; io_cases; intros Hrun; inversion Hrun; reflexivity.
  - destruct params as [[p|]|]; run_handler I; io_cases;
      intros Hrun; inversion Hrun; reflexivity.
Qed.

Lemma failure_changes_nothing_witness :
  files (snd (invoke ServerTs (Update (Some "docs") "z") sample))
  = files sample.
Proof.
  apply (failure_changes_nothing ServerTs (Update (Some "docs") "z") sample
           (snd (invoke ServerTs (Update (Some "docs") "z") sample))
           (failure
              "❌ Failed to update file: EISDIR: illegal operation on a directory, open 'docs'")).
  - vm_compute. reflexivity.
  - reflexivity.
Defined.

Lemma calls_name_given_path_witness :
  exists cs,
    calls (snd (invoke ServerTs (Create (Some "docs/c.txt") None) sample))
    = (calls sample ++ cs)%list
    /\ (forall c, In c cs ->
          target (Create (Some "docs/c.txt") None) = Some (call_path c)
          \/ exists p, target (Create (Some "docs/c.txt") None) = Some p
                       /\ c = Access (parentDir p))
    /\ (forall c, In c cs -> changes c = true ->
          target (Create (Some "docs/c.txt") None) = Some (call_path c))
    /\ (forallb (fun c => negb (changes c)) cs = true ->
        files (snd (invoke ServerTs (Create (Some "docs/c.txt") None) sample))
        = files sample).
Proof.
  apply (calls_name_given_path ServerTs (Create (Some "docs/c.txt") None)
           sample
           (snd (invoke ServerTs (Create (Some "docs/c.txt") None) sample))
           (success "✅ File created at docs/c.txt with 50 characters.")).
  vm_compute. reflexivity.
Defined.

Lemma reading_changes_nothing_witness :
  files (snd (invoke Part000 (List (Some (Some "docs"))) sample))
  = files sample.
Proof.
  apply (reading_changes_nothing Part000 (List (Some (Some "docs"))) sample
           (snd (invoke Part000 (List (Some (Some "docs"))) sample))
           (success "Files in docs: b.txt")).
  - reflexivity.
  - vm_compute. reflexivity.
Defined.

(** *** [updateFile] *)

(** X5. [updateFile] at a file replaces its content by exactly the
    content given (an empty or blank one included: there is no default
    text here) and reports success; at a path where nothing exists it
    answers that the file was not found, having only called
    [fs.access], and creates nothing. *)
Theorem updateFile_overwrites (ed : Edition) (w : World) (p c : string) :
  Js.blank p = false ->
  (forall old, files w !! p = Some (File old) ->
     updateFile ed (Some p) c w
     = (inr (success (icon ed "✅ " ++ "File successfully updated at "
                      ++ p ++ ".")),
        mkWorld (<[p := File c]> (files w))
                (calls w ++ [Access p; WriteFile p c])))
  /\ (files w !! p = None ->
      updateFile ed (Some p) c w
      = (inr (failure (icon ed "❌ " ++ "File not found at " ++ p
                       ++ ". Cannot update non-existent file.")),
         logged w [Access p])).
Proof.
  intros Hb. split.
  - intros old Hold. unfold updateFile. guard_ok. io_cases.
    rewrite <- app_assoc. reflexivity.
  - intros Hnone. unfold updateFile. guard_ok. io_cases. reflexivity.
Qed.

Lemma updateFile_overwrites_witness :
  updateFile ServerTs (Some "a.txt") "" sample
  = (inr (success "✅ File successfully updated at a.txt."),
     mkWorld (<["a.txt" := File ""]> (files sample))
             [Access "a.txt"; WriteFile "a.txt" ""])
  /\ updateFile ServerTs (Some "c.txt") "z" sample
    = (inr (failure
              "❌ File not found at c.txt. Cannot update non-existent file."),
       logged sample [Access "c.txt"]).
Proof.
  split.
  - apply (proj1 (updateFile_overwrites ServerTs sample "a.txt" ""
                    eq_refl) "x").
    vm_compute. reflexivity.
  - apply (proj2 (updateFile_overwrites ServerTs sample "c.txt" "z"
                    eq_refl)).
    vm_compute. reflexivity.
Defined.

(** X6. What [updateFile] has written, [readFile] shows: after a
    successful update with content [c], reading the path succeeds with
    the text built around exactly [c]. *)
Theorem update_then_read (ed : Edition) (w w1 : World) (p c : string)
    (r : ToolResult) :
  updateFile ed (Some p) c w = (inr r, w1) -> isError r = false ->
  exists w2,
    readFile ed (Some p) w1 = (inr (success (shown ed p c)), w2)
    /\ files w2 = files w1.
Proof.
  intros Hrun Hok. destruct (bad_path (Some p)) eqn:Hbad.
  - unfold updateFile in Hrun.
    rewrite FsFacts.checked_bad in Hrun by assumption.
    inversion Hrun; subst. discriminate.
  - assert (Hb : Js.blank p = false).
    { unfold bad_path in Hbad. apply orb_false_iff in Hbad. tauto. }
    unfold updateFile in Hrun. rewrite FsFacts.checked_good in Hrun by done.
    revert Hrun. io_cases; intros Hrun; inversion Hrun; subst;
      try discriminate.
    unfold readFile. guard_ok. io. rewrite lookup_insert_eq. io.
    eexists. split; reflexivity.
Qed.

(** The sample disk after [a.txt] has been updated to ["new"]. *)
Definition updated : World :=
  mkWorld (<["a.txt" := File "new"]> (files sample))
          [Access "a.txt"; WriteFile "a.txt" "new"].

Lemma update_then_read_witness :
  exists w2,
    readFile ServerTs (Some "a.txt") updated
    = (inr (success (shown ServerTs "a.txt" "new")), w2)
    /\ files w2 = files updated.
Proof.
  apply (update_then_read ServerTs sample updated "a.txt" "new"
           (success "✅ File successfully updated at a.txt.")).
  - vm_compute. reflexivity.
  - reflexivity.
Defined.

(** *** [deleteFile] and [readFile] *)

(** X7. [deleteFile] at a file removes it and reports success; reading
    or deleting the path afterwards answers that the file was not
    found. *)
Theorem delete_then_read (ed : Edition) (w : World) (p old : string) :
  Js.blank p = false -> files w !! p = Some (File old) ->
  exists w1,
    deleteFile ed (Some p) w
    = (inr (success (icon ed "🗑️ " ++ "File successfully deleted: " ++ p)),
       w1)
    /\ files w1 = delete p (files w)
    /\ calls w1 = (calls w ++ [Stat p; Unlink p])%list
    /\ readFile ed (Some p) w1
      = (inr (failure (icon ed "❌ " ++ "File not found at " ++ p ++ ".")),
         logged w1 [ReadFile p])
    /\ deleteFile ed (Some p) w1
      = (inr (failure (icon ed "❌ " ++ "File not found at " ++ p ++ ".")),
         logged w1 [Stat p]).
Proof.
  intros Hb Hold. unfold deleteFile, readFile. repeat guard_ok.
  io_cases. rewrite <- app_assoc. eexists. split; [reflexivity|].
  cbn [files calls]. repeat split; rewrite lookup_delete_eq; io; reflexivity.
Qed.

Lemma delete_then_read_witness :
  exists w1,
    deleteFile ServerTs (Some "a.txt") sample
    = (inr (success "🗑️ File successfully deleted: a.txt"), w1)
    /\ files w1 = delete "a.txt" (files sample)
    /\ calls w1 = [Stat "a.txt"; Unlink "a.txt"]
    /\ readFile ServerTs (Some "a.txt") w1
      = (inr (failure "❌ File not found at a.txt."),
         logged w1 [ReadFile "a.txt"])
    /\ deleteFile ServerTs (Some "a.txt") w1
      = (inr (failure "❌ File not found at a.txt."),
         logged w1 [Stat "a.txt"]).
Proof.
  apply (delete_then_read ServerTs sample "a.txt" "x").
  - reflexivity.
  - vm_compute. reflexivity.
Defined.



(** *** [appendToFile] *)



(** X10. Appends accumulate in order, one line each: after
    [appendToFile] with [c1] and then with [c2] at a file, the file
    holds what it held, then [c1] and a newline, then [c2] and a
    newline. *)
Theorem append_twice (ed : Edition) (w : World) (p old c1 c2 : string) :
  Js.blank p = false -> files w !! p = Some (File old) ->
  exists r1 w1 r2 w2,
    appendToFile ed (Some p) c1 w = (inr r1, w1)
    /\ appendToFile ed (Some p) c2 w1 = (inr r2, w2)
    /\ isError r1 = false /\ isError r2 = false
    /\ files w2 !! p = Some (File (old ++ c1 ++ nl ++ c2 ++ nl))
    /\ calls w2 = (calls w ++ [AppendFile p (c1 ++ nl);
                               AppendFile p (c2 ++ nl)])%list.
Proof.
  intros Hb Hold. unfold appendToFile. repeat guard_ok. io_cases.
  do 4 eexists. split; [reflexivity|]. io.
  rewrite lookup_insert_eq. io. split; [reflexivity|].
  cbn [files calls isError success]. repeat split.
  - rewrite lookup_insert_eq, !PathFacts.append_assoc. reflexivity.
  - rewrite <- app_assoc. reflexivity.
Qed.

Lemma append_twice_witness :
  exists r1 w1 r2 w2,
    appendToFile ServerTs (Some "a.txt") "one" sample = (inr r1, w1)
    /\ appendToFile ServerTs (Some "a.txt") "two" w1 = (inr r2, w2)
    /\ isError r1 = false /\ isError r2 = false
    /\ files w2 !! "a.txt"
      = Some (File ("x" ++ "one" ++ nl ++ "two" ++ nl))
    /\ calls w2 = (calls sample ++ [AppendFile "a.txt" ("one" ++ nl);
                                    AppendFile "a.txt" ("two" ++ nl)])%list.
Proof.
  apply (append_twice ServerTs sample "a.txt" "x" "one" "two").
  - reflexivity.
  - vm_compute. reflexivity.
Defined.

(** *** [createFile] *)

(** X11. What [createFile] has written, [readFile] shows, whatever the
    content: after a successful create, reading the path succeeds with
    the text built around the content given when it is not blank (kept
    as it is, surrounding white space included), and around the default
    text otherwise. *)
Theorem create_then_read_any (ed : Edition) (w w1 : World) (p : string)
    (c : option string) (r : ToolResult) :
  createFile ed (Some p) c w = (inr r, w1) -> isError r = false ->
  exists w2,
    readFile ed (Some p) w1
    = (inr (success (shown ed p (finalContent ed c))), w2)
    /\ files w2 = files w1
    /\ (forall s, c = Some s -> Js.blank s = false ->
         finalContent ed c = s).
Proof.
  intros Hrun Hok.
  pose proof (createFile_success ed w w1 p c r Hrun Hok) as Hfiles.
  assert (Hb : Js.blank p = false).
  { destruct (bad_path (Some p)) eqn:Hbad.
    - unfold createFile in Hrun.
      rewrite FsFacts.checked_bad in Hrun by assumption.
      inversion Hrun; subst. discriminate.
    - unfold bad_path in Hbad. apply orb_false_iff in Hbad. tauto. }
  unfold readFile. guard_ok. io. rewrite Hfiles, lookup_insert_eq. io.
  eexists. split; [reflexivity|]. split; [reflexivity|].
  intros s -> Hs. unfold finalContent. rewrite Hs. reflexivity.
Qed.

(** The sample disk after ["  hi  "] has been created at [docs/c.txt]. *)
Definition with_c : World :=
  mkWorld (<["docs/c.txt" := File "  hi  "]> (files sample))
          [Access "docs/c.txt"; Access "docs";
           WriteFile "docs/c.txt" "  hi  "].

Lemma create_then_read_any_witness :
  exists w2,
    readFile ServerTs (Some "docs/c.txt") with_c
    = (inr (success (shown ServerTs "docs/c.txt"
                       (finalContent ServerTs (Some "  hi  ")))), w2)
    /\ files w2 = files with_c
    /\ (forall s, Some "  hi  " = Some s -> Js.blank s = false ->
         finalContent ServerTs (Some "  hi  ") = s).
Proof.
  apply (create_then_read_any ServerTs sample with_c "docs/c.txt"
           (Some "  hi  ")
           (success "✅ File created at docs/c.txt with 6 characters.")).
  - vm_compute. reflexivity.
  - reflexivity.
Defined.

(** X12. A second [createFile] at the same path is refused and the
    first content stays: after a successful create, creating again with
    any content answers that a file already exists and the file still
    holds what the first call wrote. *)
Theorem create_twice (ed : Edition) (w w1 : World) (p : string)
    (c c' : option string) (r : ToolResult) :
  createFile ed (Some p) c w = (inr r, w1) -> isError r = false ->
  exists w2,
    createFile ed (Some p) c' w1
    = (inr (failure (already_exists ed p)), w2)
    /\ files w2 = files w1
    /\ files w2 !! p = Some (File (finalContent ed c)).
Proof.
  intros Hrun Hok.
  pose proof (createFile_success ed w w1 p c r Hrun Hok) as Hfiles.
  assert (Hb : Js.blank p = false).
  { destruct (bad_path (Some p)) eqn:Hbad.
    - unfold createFile in Hrun.
      rewrite FsFacts.checked_bad in Hrun by assumption.
      inversion Hrun; subst. discriminate.
    - unfold bad_path in Hbad. apply orb_false_iff in Hbad. tauto. }
  rewrite createFile_existing; [|assumption|].
  - eexists. split; [reflexivity|]. cbn [logged files].
    split; [reflexivity|]. rewrite Hfiles. apply lookup_insert_eq.
  - rewrite Hfiles, lookup_insert_eq. eauto.
Qed.

Lemma create_twice_witness :
  exists w2,
    createFile ServerTs (Some "docs/c.txt") (Some "other") with_c
    = (inr (failure (already_exists ServerTs "docs/c.txt")), w2)
    /\ files w2 = files with_c
    /\ files w2 !! "docs/c.txt"
      = Some (File (finalContent ServerTs (Some "  hi  "))).
Proof.
  apply (create_twice ServerTs sample with_c "docs/c.txt" (Some "  hi  ")
           (Some "other")
           (success "✅ File created at docs/c.txt with 6 characters.")).
  - vm_compute. reflexivity.
  - reflexivity.
Defined.

(** *** [listFiles] *)

Lemma entries_elem (fs : gmap string Node) (p : string) :
  is_Some (fs !! p) -> p <> parent p ->
  basename p ∈ entries fs (parent p).
Proof.
  intros Hp Hne. unfold entries. apply list_elem_of_fmap.
  exists p. split; [reflexivity|].
  apply list_elem_of_In, filter_In. split.
  - apply list_elem_of_In, elem_of_elements, elem_of_dom. exact Hp.
  - apply andb_true_iff. split.
    + apply String.eqb_refl.
    + apply negb_true_iff, String.eqb_neq. exact Hne.
Qed.

(** X14. A file that [createFile] has created shows in the listing of
    its directory: after a successful create at [p], [listFiles] at the
    directory of [p] succeeds, and the names it joins into its answer
    include the last component of [p]. *)
Theorem create_then_list (ed : Edition) (w w1 : World) (p : string)
    (c : option string) (r : ToolResult) :
  createFile ed (Some p) c w = (inr r, w1) -> isError r = false ->
  exists names w2,
    listFiles ed (Some (Some (parent p))) w1
    = (inr (success (icon ed "📁 " ++ "Files in " ++ parent p ++ ": "
                     ++ Js.join ", " names)), w2)
    /\ basename p ∈ names
    /\ files w2 = files w1.
Proof.
  intros Hrun Hok.
  assert (Hfacts : files w !! p = None /\ files w !! parent p = Some Dir
                   /\ files w1 = <[p := File (finalContent ed c)]> (files w)).
  { destruct (bad_path (Some p)) eqn:Hbad.
    - unfold createFile in Hrun.
      rewrite FsFacts.checked_bad in Hrun by assumption.
      inversion Hrun; subst. discriminate.
    - unfold createFile, checked in Hrun. rewrite Hbad in Hrun.
      revert Hrun. io_cases; intros Hrun; inversion Hrun; subst;
        try discriminate; repeat split; reflexivity. }
  destruct Hfacts as (Hnone & Hdir & Hfiles).
  assert (Hne : p <> parent p) by congruence.
  unfold listFiles. io.
  rewrite Hfiles, lookup_insert_ne, Hdir by assumption. io.
  do 2 eexists. split; [reflexivity|]. cbn [files]. split; [|reflexivity].
  apply entries_elem; [|assumption].
  rewrite lookup_insert_eq. eauto.
Qed.

Lemma create_then_list_witness :
  exists names w2,
    listFiles ServerTs (Some (Some (parent "docs/c.txt"))) with_c
    = (inr (success (icon ServerTs "📁 " ++ "Files in " ++ parent "docs/c.txt"
                     ++ ": " ++ Js.join ", " names)), w2)
    /\ basename "docs/c.txt" ∈ names
    /\ files w2 = files with_c.
Proof.
  apply (create_then_list ServerTs sample with_c "docs/c.txt"
           (Some "  hi  ")
           (success "✅ File created at docs/c.txt with 6 characters.")).
  - vm_compute. reflexivity.
  - reflexivity.
Defined.

End ToolhostMore.

(* ===================================================================== *)
(** ** More on the session table *)
(* ===================================================================== *)

Module SessionMore.
Import Server SessionSpec.

Section Served.

Variable randomUUID : nat -> string.
Variable initializes : option string -> Request -> bool.

Local Abbreviation post := (post_mcp randomUUID initializes).

(** The endpoint after a sequence of requests. *)
Fixpoint serve (reqs : list Request) (st : Endpoint) : Endpoint :=
  match reqs with
  | [] => st
  | req :: rest => serve rest (snd (post req st))
  end.

(** Every recorded session was recorded under an identifier drawn from
    the generator. *)
Definition keys_drawn (st : Endpoint) : Prop :=
  forall sid t, transports st !! sid = Some t ->
    exists k, k < drawn st /\ sid = randomUUID k.

Lemma keys_drawn_post (req : Request) (st : Endpoint) :
  keys_drawn st -> keys_drawn (snd (post req st)).
Proof.
  intros Hk sid t.
  destruct (post_state randomUUID initializes req st)
    as [[Ht Hd]|(Ht & Hd & _)]; rewrite Ht, Hd.
  - apply Hk.
  - rewrite lookup_insert. case_decide.
    + intros _. exists (drawn st). split; [lia | congruence].
    + intros H'. destruct (Hk sid t H') as (k & Hlt & ->).
      exists k. split; [lia | reflexivity].
Qed.

Lemma keys_drawn_serve (reqs : list Request) (st : Endpoint) :
  keys_drawn st -> keys_drawn (serve reqs st).
Proof.
  revert st. induction reqs as [|req rest IH]; intros st Hk; [exact Hk|].
  cbn [serve]. apply IH, keys_drawn_post, Hk.
Qed.

Lemma keys_drawn_boot : keys_drawn boot.
Proof.
  intros sid t H. unfold boot in H. cbn [transports] in H.
  rewrite lookup_empty in H. discriminate.
Qed.

(** X16. The table never loses a session: whatever requests arrive,
    an identifier that is recorded stays recorded. When the generator
    never yields the same identifier twice, it also stays bound to the
    same transport, in every state reached from the start. *)
Theorem sessions_are_kept (reqs later : list Request) (sid : string)
    (t : Transport) :
  (forall st, is_Some (transports st !! sid) ->
              is_Some (transports (serve later st) !! sid))
  /\ ((forall i j, randomUUID i = randomUUID j -> i = j) ->
      transports (serve reqs boot) !! sid = Some t ->
      transports (serve later (serve reqs boot)) !! sid = Some t).
Proof.
  split.
  - induction later as [|req rest IH]; intros st Hs; [exact Hs|].
    cbn [serve]. apply IH.
    destruct (post_state randomUUID initializes req st)
      as [[Ht _]|(Ht & _)]; rewrite Ht; [exact Hs|].
    rewrite lookup_insert. case_decide; [eauto | exact Hs].
  - intros Hinj.
    assert (Hstep : forall st, keys_drawn st ->
              transports st !! sid = Some t ->
              transports (serve later st) !! sid = Some t).
    { induction later as [|req rest IH]; intros st Hk Hs; [exact Hs|].
      cbn [serve]. apply IH; [apply keys_drawn_post, Hk|].
      destruct (post_state randomUUID initializes req st)
        as [[Ht _]|(Ht & _)]; rewrite Ht; [exact Hs|].
      rewrite lookup_insert_ne; [exact Hs|].
      intros Heq. destruct (Hk sid t Hs) as (k & Hlt & Hsid).
      rewrite Hsid in Heq. apply Hinj in Heq. lia. }
    apply Hstep, keys_drawn_serve, keys_drawn_boot.
Qed.

(** X17. A request without a known identifier creates a transport and
    a registry even when no session comes of it: after any number of
    requests that carry no header and do not initialize a session, the
    table is what it was, and two objects have been created for each
    request. *)
Theorem stray_requests_leak (reqs : list Request) (st : Endpoint) :
  (forall req, req ∈ reqs ->
     session_header req = None
     /\ forall own, initializes own req = false) ->
  transports (serve reqs st) = transports st
  /\ created (serve reqs st) = created st + 2 * length reqs.
Proof.
  revert st. induction reqs as [|req rest IH]; intros st Hall.
  - cbn. split; [reflexivity | lia].
  - cbn [serve length].
    destruct (Hall req) as [Hh Hinit]; [left|].
    destruct (IH (snd (post req st))) as [Ht Hc].
    { intros r Hr. apply Hall. right. exact Hr. }
    rewrite Ht, Hc.
    assert (Hk : known (session_header req) (transports st) = None)
      by (rewrite Hh; reflexivity).
    rewrite (post_fresh randomUUID initializes req st Hk), Hinit.
    cbn [snd transports created]. split; [reflexivity | lia].
Qed.

(** X18. Two requests that each open a new session are both handled,
    by two different transports with two different registries; when
    the identifiers announced differ, each is recorded with its own
    transport, and when the generator yields the same identifier twice
    the second session takes the place of the first. *)
Theorem new_sessions_are_distinct (req1 req2 : Request) (st : Endpoint)
    (sid1 sid2 : string) :
  let out1 := post req1 st in
  let out2 := post req2 (snd out1) in
  known (session_header req1) (transports st) = None ->
  known (session_header req2) (transports (snd out1)) = None ->
  exists resp1 resp2,
    fst out1 = inr resp1 /\ fst out2 = inr resp2
    /\ (announced resp1 = Some sid1 ->
        announced resp2 = Some sid2 ->
        object_id (served_by resp1) <> object_id (served_by resp2)
        /\ mcp (served_by resp1) <> mcp (served_by resp2)
        /\ transports (snd out2) !! sid2 = Some (served_by resp2)
        /\ (sid1 <> sid2 ->
            transports (snd out2) !! sid1 = Some (served_by resp1))).
Proof.
  intros out1 out2 Hk1 Hk2. subst out1 out2. revert Hk2.
  rewrite (post_fresh randomUUID initializes req1 st Hk1).
  destruct (initializes _ req1); cbn [snd]; intros Hk2;
    match goal with
    | |- context [post req2 ?s] =>
        rewrite (post_fresh randomUUID initializes req2 s Hk2)
    end;
    destruct (initializes _ req2); do 2 eexists;
    (split; [reflexivity|]); (split; [reflexivity|]);
    cbn [fst snd announced served_by object_id mcp created transports drawn];
    intros Ha1 Ha2; try discriminate.
  inversion Ha1; subst sid1. inversion Ha2; subst sid2.
  split; [lia|]. split; [lia|]. split.
  - apply lookup_insert_eq.
  - intros Hne. rewrite lookup_insert_ne by congruence.
    apply lookup_insert_eq.
Qed.

End Served.

Lemma sample_uuid_inj (i j : nat) : sample_uuid i = sample_uuid j -> i = j.
Proof.
  unfold sample_uuid. intros H.
  apply (inj (String.app "session-")) in H.
  apply (inj pretty) in H. apply Nat2N.inj. exact H.
Qed.

Lemma sessions_are_kept_witness :
  transports (serve sample_uuid sdk_initializes [stray; follow_up]
                (serve sample_uuid sdk_initializes [handshake] boot))
  !! "session-0"
  = Some (mkTransport 1 0).
Proof.
  apply (proj2 (sessions_are_kept sample_uuid sdk_initializes [handshake]
                  [stray; follow_up] "session-0" (mkTransport 1 0))
           sample_uuid_inj).
  reflexivity.
Defined.

Lemma stray_requests_leak_witness :
  transports (serve sample_uuid sdk_initializes [stray; stray; stray] boot)
  = transports boot
  /\ created (serve sample_uuid sdk_initializes [stray; stray; stray] boot)
    = created boot + 2 * 3.
Proof.
  apply (stray_requests_leak sample_uuid sdk_initializes
           [stray; stray; stray] boot).
  intros req Hreq.
  assert (req = stray) as ->.
  { repeat (apply elem_of_cons in Hreq as [-> | Hreq]; [reflexivity|]).
    apply elem_of_nil in Hreq. contradiction. }
  split; [reflexivity|]. intros [s|]; reflexivity.
Defined.

Lemma new_sessions_are_distinct_witness :
  let out1 := sample_post handshake boot in
  let out2 := sample_post handshake (snd out1) in
  transports (snd out2) !! "session-1" = Some (mkTransport 3 2)
  /\ transports (snd out2) !! "session-0" = Some (mkTransport 1 0).
Proof.
  intros out1 out2.
  destruct (new_sessions_are_distinct sample_uuid sdk_initializes handshake
              handshake boot "session-0" "session-1" eq_refl eq_refl)
    as (resp1 & resp2 & H1 & H2 & H).
  change (inr (mkResponse (mkTransport 1 0) (Some "session-0"))
          = (inr resp1 : string + Response)) in H1.
  change (inr (mkResponse (mkTransport 3 2) (Some "session-1"))
          = (inr resp2 : string + Response)) in H2.
  injection H1 as <-. injection H2 as <-.
  destruct (H eq_refl eq_refl) as (_ & _ & Hb & Ha).
  split; [exact Hb | apply Ha; discriminate].
Defined.

End SessionMore.

(* ===================================================================== *)
(** ** More on the driver *)
(* ===================================================================== *)

Module DriverMore.
Import Fs Server Client System DriverSpec.

(** The text of the items of type [text], in order. *)
Fixpoint texts (items : list ContentItem) : string :=
  match items with
  | [] => ""
  | item :: rest =>
      if String.eqb (type item) "text" then text item ++ texts rest
      else texts rest
  end.

Lemma append_nil_r (s : string) : s ++ "" = s.
Proof.
  induction s as [|c s IH]; [reflexivity|].
  change (String c (s ++ "") = String c s). f_equal. exact IH.
Qed.

Lemma toolOutput_loop (items : list ContentItem) (out : string) :
  fold_left
    (fun out item =>
       if String.eqb (type item) "text" then out ++ text item else out)
    items out
  = out ++ texts items.
Proof.
  revert out. induction items as [|item rest IH]; intros out.
  - cbn. symmetry. apply append_nil_r.
  - cbn [fold_left texts]. rewrite IH.
    destruct (String.eqb (type item) "text"); [|reflexivity].
    apply PathFacts.append_assoc.
Qed.

Lemma texts_app (a b : list ContentItem) :
  texts (a ++ b) = texts a ++ texts b.
Proof.
  induction a as [|item a IH]; [reflexivity|].
  cbn [app texts]. rewrite IH.
  destruct (String.eqb (type item) "text"); [|reflexivity].
  symmetry. apply PathFacts.append_assoc.
Qed.

(** X19. The text the driver passes on for a result is the texts of the
    result's items of type [text], joined in order; items of any other
    type contribute nothing, and neither does the error flag: a failure
    and a success with the same items give the same text. *)
Theorem toolOutput_texts (a b : list ContentItem) (e e1 e2 : bool) :
  toolOutput (mkResult (a ++ b) e)
  = toolOutput (mkResult a e1) ++ toolOutput (mkResult b e2)
  /\ toolOutput (mkResult a e) = texts a
  /\ forall ty t, ty <> "text" ->
       toolOutput (mkResult (a ++ mkItem ty t :: b) e)
       = toolOutput (mkResult (a ++ b) e).
Proof.
  unfold toolOutput. cbn [Server.content]. rewrite !toolOutput_loop.
  cbn. split; [apply texts_app|]. split; [reflexivity|].
  intros ty t Hty. rewrite !toolOutput_loop, !texts_app. cbn [texts type].
  destruct (String.eqb_spec ty "text"); [contradiction | reflexivity].
Qed.

Section Generic.

Variable Host : Type.
Variable callTool : string -> Args -> Host -> (string + ToolResult) * Host.
Variable llm : list Message -> option Message.

(** The loop over a batch composes: running the calls [pre] and then
    the calls [post] is running [pre ++ post], and a rejection in [pre]
    leaves [post] unrun. *)
Lemma forEach_app (pre post : list ToolCall) (d : Driver Host) :
  forEach callTool (pre ++ post) d
  = match forEach callTool pre d with
    | (inl e, d') => (inl e, d')
    | (inr _, d') => forEach callTool post d'
    end.
Proof.
  revert d. induction pre as [|c pre IH]; intros d; [reflexivity|].
  cbn [app forEach].
  destruct (callTool (function_name c) (function_arguments c) (host d))
    as [[e|r] h]; [reflexivity|].
  apply IH.
Qed.

Lemma forEach_grows (calls : list ToolCall) (d : Driver Host) :
  messages d `prefix_of` messages (snd (forEach callTool calls d))
  /\ submitted (snd (forEach callTool calls d)) = submitted d.
Proof.
  revert d. induction calls as [|c rest IH]; intros d; [split; reflexivity|].
  cbn [forEach].
  destruct (callTool (function_name c) (function_arguments c) (host d))
    as [[e|r] h]; [split; reflexivity|].
  destruct (IH (push (answer c r) (mkDriver (messages d) h (submitted d))))
    as [Hm Hs].
  split; [|exact Hs].
  etrans; [|exact Hm]. cbn [push messages]. apply prefix_app_r. reflexivity.
Qed.

(** The transcript submitted for a line, and the state in which the
    loop over the calls of the reply starts. *)
Definition asking (userInput : string) (d : Driver Host) : list Message :=
  (messages d ++ [say user userInput])%list.

Definition batch_start (userInput : string) (d : Driver Host)
    : Driver Host :=
  mkDriver
    (asking userInput d
     ++ [recorded (toolCalls (reply llm (asking userInput d)))])%list
    (host d)
    (submitted d ++ [asking userInput d])%list.

Lemma turn_eq (userInput : string) (d : Driver Host) :
  turn callTool llm userInput d
  = match toolCalls (reply llm (asking userInput d)) with
    | [] =>
        (inr tt,
         mkDriver
           (asking userInput d
            ++ [say assistant (content (reply llm (asking userInput d)))])
           (host d) (submitted d ++ [asking userInput d]))
    | _ :: _ =>
        match forEach callTool (toolCalls (reply llm (asking userInput d)))
                (batch_start userInput d) with
        | (inl e, d1) => (inl e, d1)
        | (inr _, d1) =>
            (inr tt,
             mkDriver
               (messages d1
                ++ [say assistant (content (reply llm (messages d1)))])
               (host d1) (submitted d1 ++ [messages d1]))
        end
    end%list.
Proof.
  unfold turn, callLLM, batch_start, asking, recorded.
  cbn [push messages host submitted].
  destruct (toolCalls (reply llm (messages d ++ [say user userInput])));
    [reflexivity|].
  destruct (forEach callTool _ _) as [[e|u] d1]; reflexivity.
Qed.

Lemma turn_batch (userInput : string) (d : Driver Host) :
  toolCalls (reply llm (asking userInput d)) <> [] ->
  turn callTool llm userInput d
  = match forEach callTool (toolCalls (reply llm (asking userInput d)))
            (batch_start userInput d) with
    | (inl e, d1) => (inl e, d1)
    | (inr _, d1) =>
        (inr tt,
         mkDriver
           (messages d1
            ++ [say assistant (content (reply llm (messages d1)))])
           (host d1) (submitted d1 ++ [messages d1]))
    end%list.
Proof.
  intros Hne. rewrite turn_eq.
  destruct (toolCalls (reply llm (asking userInput d)));
    [contradiction | reflexivity].
Qed.

Lemma turn_grows (userInput : string) (d : Driver Host) :
  messages d `prefix_of` messages (snd (turn callTool llm userInput d))
  /\ submitted d `prefix_of` submitted (snd (turn callTool llm userInput d))
  /\ length (submitted (snd (turn callTool llm userInput d)))
     <= 2 + length (submitted d).
Proof.
  rewrite turn_eq.
  destruct (toolCalls (reply llm (asking userInput d))) as [|c0 rest] eqn:Hc.
  - cbn [snd messages submitted]. unfold asking.
    rewrite length_app. cbn [length].
    repeat split; try lia.
    + rewrite <- app_assoc. apply prefix_app_r. reflexivity.
    + apply prefix_app_r. reflexivity.
  - pose proof (forEach_grows (c0 :: rest) (batch_start userInput d))
      as [Hm Hs].
    destruct (forEach callTool (c0 :: rest) (batch_start userInput d))
      as [[e|u] d1]; cbn [snd messages submitted] in *;
      unfold batch_start, asking in *; cbn [messages submitted] in *.
    + rewrite Hs, length_app. cbn [length]. repeat split; try lia.
      * etrans; [|exact Hm]. rewrite <- app_assoc.
        apply prefix_app_r. reflexivity.
      * apply prefix_app_r. reflexivity.
    + rewrite Hs, !length_app. cbn [length]. repeat split; try lia.
      * etrans; [|apply prefix_app_r; reflexivity].
        etrans; [|exact Hm]. rewrite <- app_assoc.
        apply prefix_app_r. reflexivity.
      * rewrite <- app_assoc. apply prefix_app_r. reflexivity.
Qed.

(** X20. The chat never rewrites history and never asks more than twice
    per line: whatever the model and the toolhost do, the transcript
    before a run of the loop is a prefix of the transcript after it,
    the transcripts already submitted stay as they were, and at most
    two transcripts are submitted for each line typed. *)
Theorem chat_only_appends (inputs : list string) (d : Driver Host) :
  messages d `prefix_of` messages (snd (chat callTool llm inputs d))
  /\ submitted d `prefix_of` submitted (snd (chat callTool llm inputs d))
  /\ length (submitted (snd (chat callTool llm inputs d)))
     <= length (submitted d) + 2 * length inputs.
Proof.
  revert d. induction inputs as [|x rest IH]; intros d.
  - cbn. repeat split; try reflexivity. lia.
  - cbn [chat length]. destruct (is_exit x).
    + cbn [snd]. repeat split; try reflexivity. lia.
    + pose proof (turn_grows x d) as (Hm & Hs & Hl).
      destruct (turn callTool llm x d) as [[e|u] d1]; cbn [snd] in *.
      * repeat split; try assumption. lia.
      * destruct (IH d1) as (Hm' & Hs' & Hl').
        repeat split; try (etrans; eassumption). lia.
Qed.

(** X21. Whatever is typed after the exit word is ignored: a line that
    is [exit] in any letter case ends the chat where it stands, so the
    lines before it decide the outcome alone. *)
Theorem exit_ends_chat (pre post : list string) (x : string)
    (d : Driver Host) :
  is_exit x = true ->
  chat callTool llm (pre ++ x :: post) d = chat callTool llm pre d.
Proof.
  intros Hx. revert d. induction pre as [|y pre IH]; intros d.
  - cbn [app chat]. rewrite Hx. reflexivity.
  - cbn [app chat]. destruct (is_exit y); [reflexivity|].
    destruct (turn callTool llm y d) as [[e|u] d1]; [reflexivity|].
    apply IH.
Qed.

(** X22. A call the toolhost rejects ends the chat: when the toolhost
    answers the calls [pre] of a batch and rejects the next one, the
    calls after it are not made (the toolhost is left as the rejected
    call left it), the model is not asked again (the transcript that
    carried the user's line is the only one submitted), and the lines
    still to come are not read. *)
Theorem rejected_call_ends_chat (userInput : string) (rest : list string)
    (d d1 : Driver Host) (pre post : list ToolCall) (c : ToolCall)
    (e : string) (h : Host) :
  let asked := (messages d ++ [say user userInput])%list in
  is_exit userInput = false ->
  toolCalls (reply llm asked) = (pre ++ c :: post)%list ->
  forEach callTool pre
    (mkDriver (asked ++ [recorded (pre ++ c :: post)]) (host d)
              (submitted d ++ [asked]))
  = (inr tt, d1) ->
  callTool (function_name c) (function_arguments c) (host d1) = (inl e, h) ->
  chat callTool llm (userInput :: rest) d
  = (inl e, mkDriver (messages d1) h (submitted d ++ [asked])).
Proof.
  intros asked Hx Hcalls Hpre Hrej.
  cbn [chat]. rewrite Hx, turn_batch; unfold batch_start, asking;
    fold asked; rewrite Hcalls; [|destruct pre; discriminate].
  rewrite forEach_app, Hpre. cbn [forEach]. rewrite Hrej.
  pose proof (forEach_grows pre
                (mkDriver (asked ++ [recorded (pre ++ c :: post)])%list
                          (host d) (submitted d ++ [asked])%list)) as [_ Hs].
  rewrite Hpre in Hs. cbn [snd submitted] in Hs. rewrite Hs.
  reflexivity.
Qed.

(** X23. A response of the endpoint that carries no message is treated
    as a plain answer: the placeholder text is appended as the
    assistant's answer, nothing is executed and the model is not asked
    again; a message whose list of tool calls is absent or empty is
    appended with its own content in the same way. *)
Theorem reply_without_calls (userInput : string) (d : Driver Host) :
  let asked := (messages d ++ [say user userInput])%list in
  llm asked = None
  \/ (exists m, llm asked = Some m
                /\ (tool_calls m = None \/ tool_calls m = Some [])) ->
  turn callTool llm userInput d
  = (inr tt,
     mkDriver
       (asked ++ [say assistant
                    match llm asked with
                    | Some m => content m
                    | None => "⚠️ No message received."
                    end])
       (host d) (submitted d ++ [asked])).
Proof.
  intros asked H. rewrite turn_eq. unfold asking. fold asked.
  unfold reply, toolCalls.
  destruct H as [-> | (m & -> & [-> | ->])]; reflexivity.
Qed.

(** A transcript that ends with a message of the user or of a tool. *)
Definition awaits_model (t : list Message) : Prop :=
  exists m, last t = Some m /\ (role m = user \/ role m = tool).

Lemma forEach_last (calls : list ToolCall) (d d' : Driver Host) :
  forEach callTool calls d = (inr tt, d') -> calls <> [] ->
  exists m, last (messages d') = Some m /\ role m = tool.
Proof.
  revert d. induction calls as [|c rest IH]; intros d Hrun Hne;
    [contradiction|].
  cbn [forEach] in Hrun.
  destruct (callTool (function_name c) (function_arguments c) (host d))
    as [[e|r] h]; [discriminate|].
  destruct rest as [|c' rest].
  - cbn [forEach] in Hrun. inversion Hrun; subst.
    cbn [push messages]. rewrite last_snoc. eexists. split; reflexivity.
  - eapply IH; [exact Hrun | discriminate].
Qed.

Lemma turn_awaits (userInput : string) (d : Driver Host) :
  (forall t, t ∈ submitted d -> awaits_model t) ->
  forall t, t ∈ submitted (snd (turn callTool llm userInput d)) ->
            awaits_model t.
Proof.
  intros Hd. rewrite turn_eq.
  assert (Hasked : awaits_model (asking userInput d)).
  { exists (say user userInput). unfold asking. rewrite last_snoc.
    split; [reflexivity|]. left. reflexivity. }
  destruct (toolCalls (reply llm (asking userInput d))) as [|c0 rest] eqn:Hc.
  - cbn [snd submitted]. intros t Ht.
    apply elem_of_app in Ht as [Ht | Ht]; [apply Hd, Ht|].
    apply list_elem_of_singleton in Ht as ->. exact Hasked.
  - pose proof (forEach_grows (c0 :: rest) (batch_start userInput d))
      as [_ Hs].
    destruct (forEach callTool (c0 :: rest) (batch_start userInput d))
      as [[e|[]] d1] eqn:Hrun; cbn [snd submitted] in *;
      unfold batch_start in Hs; cbn [submitted] in Hs; rewrite Hs.
    + intros t Ht. apply elem_of_app in Ht as [Ht | Ht]; [apply Hd, Ht|].
      apply list_elem_of_singleton in Ht as ->. exact Hasked.
    + intros t Ht. apply elem_of_app in Ht as [Ht | Ht].
      * apply elem_of_app in Ht as [Ht | Ht]; [apply Hd, Ht|].
        apply list_elem_of_singleton in Ht as ->. exact Hasked.
      * apply list_elem_of_singleton in Ht as ->.
        destruct (forEach_last _ _ _ Hrun) as (m & Hm & Hr);
          [discriminate|].
        exists m. split; [exact Hm | right; exact Hr].
Qed.

Lemma chat_awaits (inputs : list string) (d : Driver Host) :
  (forall t, t ∈ submitted d -> awaits_model t) ->
  forall t, t ∈ submitted (snd (chat callTool llm inputs d)) ->
            awaits_model t.
Proof.
  revert d. induction inputs as [|x rest IH]; intros d Hd; [exact Hd|].
  cbn [chat]. destruct (is_exit x); [exact Hd|].
  pose proof (turn_awaits x d Hd) as Ht.
  destruct (turn callTool llm x d) as [[e|u] d1]; cbn [snd] in *;
    [exact Ht|].
  apply IH, Ht.
Qed.

(** X24. The model is only ever asked when it is its turn to speak: in
    both copies of the driver, every transcript submitted to the model
    ends with a message of the user or with a tool result, never with a
    message of the assistant. *)
Theorem main_awaits_model (v : Variant) (inputs : list string) (h : Host)
    (t : list Message) :
  t ∈ submitted (snd (main callTool llm v inputs h)) -> awaits_model t.
Proof.
  unfold main. apply chat_awaits.
  destruct v; unfold callLLM; cbn [snd submitted messages].
  - intros t' Ht. apply list_elem_of_singleton in Ht as ->.
    eexists. split; [reflexivity|]. left. reflexivity.
  - intros t' Ht. apply elem_of_nil in Ht. contradiction.
Qed.

End Generic.

Arguments asking {Host}.
Arguments batch_start {Host}.

(** *** Examples *)

(** A model that asks for three calls, the second of which names a tool
    the toolhost does not have. *)
Definition careless (_ : list Message) : option Message :=
  Some (mkMessage assistant "" (Some [read_a; shred; read_b]) None).

(** An endpoint whose responses carry no message. *)
Definition silent (_ : list Message) : option Message := None.

(** A connection over which a call that names an unregistered tool is
    rejected instead of answered. *)
Definition strict_call (n : string) (a : Args) (h : Toolhost)
    : (string + ToolResult) * Toolhost :=
  match find_tool (getServer ServerTs "/srv") n with
  | None => (inl ("Tool " ++ n ++ " not found"),
             mkToolhost (disk h) (received h ++ [(n, a)]))
  | Some _ => sample_call n a h
  end.

Lemma exit_ends_chat_witness :
  chat sample_call helpful (["read both"] ++ "Exit" :: ["never read"]) start
  = chat sample_call helpful ["read both"] start.
Proof.
  apply (exit_ends_chat Toolhost sample_call helpful ["read both"]
           ["never read"] "Exit" start).
  reflexivity.
Defined.

(** The driver after [read_a] has been answered, in the batch of
    [careless]. *)
Definition after_first : Driver Toolhost :=
  snd (forEach strict_call [read_a]
         (mkDriver
            ((messages start ++ [say user "go"])
             ++ [recorded [read_a; shred; read_b]])%list
            (host start)
            (submitted start ++ [messages start ++ [say user "go"]])%list)).

Lemma rejected_call_ends_chat_witness :
  chat strict_call careless ("go" :: ["next"]) start
  = (inl "Tool shredFile not found",
     mkDriver (messages after_first)
       (mkToolhost (ToolhostSpec.logged ToolhostSpec.sample [ReadFile "a.txt"])
          [request read_a; request shred])
       (submitted start ++ [messages start ++ [say user "go"]])%list).
Proof.
  apply (rejected_call_ends_chat Toolhost strict_call careless "go" ["next"]
           start after_first [read_a] [read_b] shred
           "Tool shredFile not found"
           (mkToolhost (ToolhostSpec.logged ToolhostSpec.sample [ReadFile "a.txt"])
          [request read_a; request shred])).
  - reflexivity.
  - reflexivity.
  - vm_compute. reflexivity.
  - vm_compute. reflexivity.
Defined.

Lemma reply_without_calls_witness :
  turn sample_call silent "anyone?" start
  = (inr tt,
     mkDriver
       ((messages start ++ [say user "anyone?"])
        ++ [say assistant
              match silent (messages start ++ [say user "anyone?"])%list with
              | Some m => content m
              | None => "⚠️ No message received."
              end])%list
       (host start)
       (submitted start ++ [messages start ++ [say user "anyone?"]])%list).
Proof.
  apply (reply_without_calls Toolhost sample_call silent "anyone?" start).
  left. reflexivity.
Defined.

Lemma main_awaits_model_witness :
  awaits_model [opening Greeting].
Proof.
  apply (main_awaits_model Toolhost sample_call helpful Greeting ["hi"]
           online [opening Greeting]).
  vm_compute. left.
Defined.

(** *** Answers and deliveries *)

Definition is_tool (m : Message) : bool :=
  match role m with
  | tool => true
  | _ => false
  end.

(** The number of tool messages of a transcript. *)
Definition tool_messages (ms : list Message) : nat :=
  length (List.filter is_tool ms).

Lemma tool_messages_app (a b : list Message) :
  tool_messages (a ++ b) = tool_messages a + tool_messages b.
Proof.
  unfold tool_messages. rewrite List.filter_app, length_app. reflexivity.
Qed.

Section Deliveries.

Variable Host : Type.
Variable callTool : string -> Args -> Host -> (string + ToolResult) * Host.
Variable llm : list Message -> option Message.

(** The connection with the calls delivered over it counted, whether
    they are answered or rejected. *)
Definition counted (n : string) (a : Args) (h : Host * nat)
    : (string + ToolResult) * (Host * nat) :=
  let '(r, h') := callTool n a (fst h) in (r, (h', S (snd h))).

Definition deliveries (d : Driver (Host * nat)) : nat := snd (host d).

(** From [d] to the outcome [out]: tool messages are only added, calls
    are only delivered, and each delivered call has added one tool
    message, except a call that was rejected, which ends the run. *)
Definition in_step (d : Driver (Host * nat))
    (out : (string + unit) * Driver (Host * nat)) : Prop :=
  tool_messages (messages d) <= tool_messages (messages (snd out))
  /\ deliveries d <= deliveries (snd out)
  /\ deliveries (snd out) - deliveries d
    = match fst out with inl _ => 1 | inr _ => 0 end
      + (tool_messages (messages (snd out)) - tool_messages (messages d)).

Lemma in_step_refl (d : Driver (Host * nat)) : in_step d (inr tt, d).
Proof. unfold in_step. cbn [fst snd]. lia. Qed.

Lemma in_step_trans (d d1 : Driver (Host * nat))
    (out : (string + unit) * Driver (Host * nat)) (u : unit) :
  in_step d (inr u, d1) -> in_step d1 out -> in_step d out.
Proof.
  unfold in_step. cbn [fst snd]. destruct (fst out); lia.
Qed.

Lemma forEach_in_step (calls : list ToolCall) (d : Driver (Host * nat)) :
  in_step d (forEach counted calls d).
Proof.
  revert d. induction calls as [|c rest IH]; intros d;
    [apply in_step_refl|].
  cbn [forEach]. unfold counted at 1.
  destruct (callTool (function_name c) (function_arguments c)
              (fst (host d))) as [[e|r] h].
  - unfold in_step, deliveries. cbn [fst snd messages host]. lia.
  - eapply (in_step_trans d _ _ tt); [|apply IH].
    unfold in_step, deliveries, push. cbn [fst snd messages host].
    rewrite tool_messages_app. cbn. lia.
Qed.

Lemma turn_in_step (userInput : string) (d : Driver (Host * nat)) :
  in_step d (turn counted llm userInput d).
Proof.
  rewrite turn_eq.
  destruct (toolCalls (reply llm (asking userInput d)))
    as [|c0 rest] eqn:Hc.
  - unfold in_step, deliveries, asking. cbn [fst snd messages host].
    rewrite !tool_messages_app. cbn. lia.
  - pose proof (forEach_in_step (c0 :: rest)
                  (batch_start llm userInput d)) as Hstep.
    destruct (forEach counted (c0 :: rest) _) as [[e|u] d1];
      revert Hstep; unfold in_step, deliveries, batch_start, asking;
      cbn [fst snd messages host]; rewrite !tool_messages_app; cbn; lia.
Qed.

Lemma chat_in_step (inputs : list string) (d : Driver (Host * nat)) :
  in_step d (chat counted llm inputs d).
Proof.
  revert d. induction inputs as [|x rest IH]; intros d;
    [apply in_step_refl|].
  cbn [chat]. destruct (is_exit x); [apply in_step_refl|].
  pose proof (turn_in_step x d) as Hturn.
  destruct (turn counted llm x d) as [[e|u] d1]; [exact Hturn|].
  apply (in_step_trans d d1 _ u); [exact Hturn | apply IH].
Qed.

(** X25. Transcript and toolhost stay in step. Over any chat, whatever
    the model replies and whatever the connection does with a call:
    tool messages are only added to the transcript, every tool message
    added answers a call that was delivered, at most one delivered call
    is left without its tool message, and when the chat ends without a
    failure every delivered call has its tool message. *)
Theorem answers_match_deliveries (inputs : list string)
    (d : Driver (Host * nat)) :
  let out := chat counted llm inputs d in
  let answered :=
    tool_messages (messages (snd out)) - tool_messages (messages d) in
  let delivered := deliveries (snd out) - deliveries d in
  tool_messages (messages d) <= tool_messages (messages (snd out))
  /\ deliveries d <= deliveries (snd out)
  /\ answered <= delivered <= S answered
  /\ (fst out = inr tt -> delivered = answered).
Proof.
  intros out answered delivered. subst answered delivered.
  destruct (chat_in_step inputs d) as (Hm & Hd & Hstep).
  fold out in Hm, Hd, Hstep.
  split; [exact Hm|]. split; [exact Hd|]. rewrite Hstep. split.
  - destruct (fst out); lia.
  - intros ->. lia.
Qed.

End Deliveries.

Arguments counted {Host}.
Arguments deliveries {Host}.

(** The driver of the examples with its deliveries counted. *)
Definition counting : Driver (Toolhost * nat) :=
  mkDriver [opening SystemPrompt] (online, 0) [].

Lemma answers_match_deliveries_witness :
  deliveries
    (snd (chat (counted sample_call) helpful
            ["read them"; "exit"] counting))
  - deliveries counting
  = tool_messages
      (messages (snd (chat (counted sample_call) helpful
                        ["read them"; "exit"] counting)))
    - tool_messages (messages counting).
Proof.
  apply (proj2 (proj2 (proj2
           (answers_match_deliveries Toolhost sample_call helpful
              ["read them"; "exit"] counting)))).
  vm_compute. reflexivity.
Defined.

(** A rejected call is delivered and not answered: with the connection
    of [strict_call], two calls are delivered and one tool message is
    added. *)
Example rejected_call_is_counted :
  let out :=
    chat (counted strict_call) careless ["go"; "next"] counting in
  fst out = inl "Tool shredFile not found"
  /\ deliveries (snd out) = 2
  /\ tool_messages (messages (snd out)) = 1.
Proof. vm_compute. repeat split. Qed.

End DriverMore.
